(** * Authorship blame: character attribution from a snapshot history

    A shallow embedding of [src/main.ts] (the Obsidian plugin class
    [CollabSyncHighlightPlugin]) and the properties of its attribution
    pipeline: [findNextChangeIndex], [replace_chars],
    [getSegmentFromHistory], [convert_segment_to_groups], [getFileVersions]
    and the synchronous core of [buildDecorations].

    JavaScript strings are modelled by [string] (code units restricted to
    one byte), JavaScript numbers that may become negative by [Z], loop
    counters and lengths by [nat].  A JavaScript exception is an explicit
    outcome. *)

From Stdlib Require Import List ZArith Lia Bool Arith String Ascii.
From Stdlib Require Import Sorting.Sorted Sorting.Permutation.
Import ListNotations.

Open Scope string_scope.
Open Scope list_scope.
Open Scope nat_scope.

(** ** Outcomes of a JavaScript computation *)

Module Js.

(** A call either returns, throws a [TypeError] (reading a property of
    [undefined]), or is cut off because the fuel given to an unbounded
    [while] loop ran out. *)
Inductive outcome (A : Type) : Type :=
| Done (a : A)
| TypeError
| OutOfFuel.

Arguments Done {A} a.
Arguments TypeError {A}.
Arguments OutOfFuel {A}.

Definition bind {A B : Type} (m : outcome A) (k : A -> outcome B) : outcome B :=
  match m with
  | Done a => k a
  | TypeError => TypeError
  | OutOfFuel => OutOfFuel
  end.

Definition returns {A : Type} (m : outcome A) : bool :=
  match m with Done _ => true | _ => false end.

(** [o.p] on a possibly [undefined] object [o]. *)
Definition prop_of {A B : Type} (o : option A) (p : A -> B) : outcome B :=
  match o with
  | Some a => Done (p a)
  | None => TypeError
  end.

(** [l[i]] for an array [l] and a number [i]: [undefined] out of range,
    also for a negative index. *)
Definition index {A : Type} (l : list A) (i : Z) : option A :=
  if (i <? 0)%Z then None else nth_error l (Z.to_nat i).

(** [s.length] as a number. *)
Definition len (s : string) : Z := Z.of_nat (String.length s).

(** [String.prototype.repeat] for a count that is not negative. *)
Fixpoint repeat (s : string) (n : nat) : string :=
  match n with
  | O => ""
  | S n' => (s ++ repeat s n')%string
  end.

(** The relative-index rule of [String.prototype.slice]: a negative
    index counts from the end, and the result is clamped to the string. *)
Definition clamp (length k : Z) : Z :=
  if (k <? 0)%Z then Z.max (length + k) 0 else Z.min k length.

(** [s.slice(start, end)]. *)
Definition slice (s : string) (start end_ : Z) : string :=
  let from := clamp (len s) start in
  let to := clamp (len s) end_ in
  substring (Z.to_nat from) (Z.to_nat (Z.max (to - from) 0)) s.

(** [ToInt32] and the 32-bit left shift. *)
Definition to_int32 (z : Z) : Z :=
  let m := (z mod 2 ^ 32)%Z in
  if (2 ^ 31 <=? m)%Z then (m - 2 ^ 32)%Z else m.

Definition shl (z k : Z) : Z := to_int32 (Z.shiftl (to_int32 z) k).

Definition band (a b : Z) : Z := to_int32 (Z.land (to_int32 a) (to_int32 b)).

Definition hex_digit (d : Z) : string :=
  substring (Z.to_nat d) 1 "0123456789abcdef".

(** [n.toString(16)] for a number that is not negative; [fuel] bounds the
    number of digits. *)
Fixpoint to_hex (fuel : nat) (n : Z) : string :=
  match fuel with
  | O => ""
  | S fuel' =>
      if (n <? 16)%Z then hex_digit n
      else (to_hex fuel' (n / 16) ++ hex_digit (n mod 16))%string
  end.

(** [s.padStart(width, pad)] for a one-character [pad]. *)
Definition padStart (s : string) (width : nat) (pad : string) : string :=
  (repeat pad (width - String.length s) ++ s)%string.

(** [s.charCodeAt(i)] for every [i] in range, left to right. *)
Definition char_codes (s : string) : list Z :=
  map (fun c => Z.of_nat (nat_of_ascii c)) (list_ascii_of_string s).

End Js.

Notation "x <- m ;; k" := (Js.bind m (fun x => k))
  (at level 61, m at next level, right associativity).

(** ** Data model *)

(** [interface HistoryItem]; [content] is optional. *)
Record HistoryItem : Type := mkHistoryItem {
  mtime : Z;
  user : string;
  size : Z;
  content : option string
}.

(** The objects of the edit script returned by [Diff.diffChars]: the
    pipeline reads [added], [removed] and [count] of each. *)
Record Change : Type := mkChange {
  value : string;
  count : nat;
  added : bool;
  removed : bool
}.

(** The elements of the array built by [convert_segment_to_groups].
    [char] is [segments[i]], which is [undefined] out of range, and
    [color] is a lookup in [color_dict]. *)
Record Group : Type := mkGroup {
  start : nat;
  end_ : nat;
  color : option string;
  char : option ascii
}.

(** What [builder.add(from, to, Decoration.mark({attributes: {style}}))]
    records. *)
Record DecorationRange : Type := mkRange {
  from : nat;
  to : nat;
  style : string
}.

(** ** Change-run segmentation *)

Definition opt_string_eqb (a b : option string) : bool :=
  match a, b with
  | Some x, Some y => String.eqb x y
  | None, None => true
  | _, _ => false
  end.

(** [findNextChangeIndex(history, startingIndex)]: the first index after
    [startingIndex] whose user differs from the one at [startingIndex],
    else [history.length]. *)
Definition findNextChangeIndex (history : list HistoryItem) (startingIndex : nat) : nat :=
  let users := map user history in
  let starting_user := nth_error users startingIndex in
  match find (fun i => negb (opt_string_eqb (nth_error users i) starting_user))
             (seq (startingIndex + 1) (List.length users - (startingIndex + 1))) with
  | Some i => i
  | None => List.length history
  end.

(** The [while (current_index != history.length)] loop of
    [getSegmentFromHistory], one unfolding per unit of fuel. *)
Fixpoint scan_boundaries (fuel : nat) (history : list HistoryItem)
    (current_index : nat) (change_indices : list nat) : Js.outcome (list nat) :=
  if current_index =? List.length history then Js.Done change_indices
  else
    match fuel with
    | O => Js.OutOfFuel
    | S fuel' =>
        let next_index := findNextChangeIndex history current_index in
        scan_boundaries fuel' history next_index (change_indices ++ [next_index])
    end.

(** The first nine lines of [getSegmentFromHistory]: the loop started at
    index 0 on an empty array, then [change_indices.push(history.length)].
    The loop runs at most [history.length] times (lemma
    [scan_boundaries_terminates]). *)
Definition change_indices_of (history : list HistoryItem) : Js.outcome (list nat) :=
  change_indices <- scan_boundaries (List.length history) history 0 [] ;;
  Js.Done (change_indices ++ [List.length history]).

(** ** Labels and the label buffer *)

(** [getCharFromUser(user)]: the one-character label of an author. *)
Definition getCharFromUser (user : string) : string :=
  if (user =? "bean_machine")%string then "b"
  else if (user =? "Bident-of-Thassa.local")%string then "T"
  else "_".

(** [replace_chars(s, char, start_index, length)]: pad [s] with ["_"] up
    to [start_index + length], then put [length] copies of [char] in place
    of the [length] characters at [start_index]. *)
Definition replace_chars (s char : string) (start_index : Z) (length : nat) : string :=
  let s :=
    if (start_index + Z.of_nat length >? Js.len s)%Z
    then (s ++ Js.repeat "_" (Z.to_nat (start_index + Z.of_nat length - Js.len s)))%string
    else s in
  (Js.slice s 0 start_index
   ++ Js.repeat char length
   ++ Js.slice s (start_index + Z.of_nat length) (Js.len s))%string.

(** The body of [diff.forEach((change) => ...)]: the closure's variables
    [segments] and [offset] are the state. *)
Definition replay_change (prev_hist next_hist : HistoryItem)
    (st : string * Z) (change : Change) : string * Z :=
  let '(segments, offset) := st in
  if added change then
    let char := getCharFromUser (user next_hist) in
    (replace_chars segments char offset (count change),
     (offset + Z.of_nat (count change))%Z)
  else if removed change then
    (replace_chars segments "" offset (count change),
     (offset - Z.of_nat (count change))%Z)
  else
    let char := getCharFromUser (user prev_hist) in
    (replace_chars segments char offset (count change),
     (offset + Z.of_nat (count change))%Z).

(** The whole [forEach], with [offset] starting at 0. *)
Definition replay (prev_hist next_hist : HistoryItem) (segments : string)
    (diff : list Change) : string * Z :=
  fold_left (replay_change prev_hist next_hist) diff (segments, 0%Z).

Section Attribution.

(** [Diff.diffChars] of the package [diff], which is not among the
    sources: it is given an old and a new text (either can be [undefined]
    here, [content] being optional) and returns an edit script or throws. *)
Variable diffChars : option string -> option string -> Js.outcome (list Change).

(** One round of [for (let i = 0; i < change_indices.length - 1; i++)]. *)
Definition process_pair (history : list HistoryItem) (change_indices : list nat)
    (segments : string) (i : nat) : Js.outcome string :=
  let at_boundary (k : nat) : option HistoryItem :=
    match nth_error change_indices k with
    | Some c => Js.index history (Z.of_nat c - 1)
    | None => None
    end in
  match at_boundary i, at_boundary (i + 1) with
  | Some prev_hist, Some next_hist =>
      if negb (user prev_hist =? user next_hist)%string then
        diff <- diffChars (content prev_hist) (content next_hist) ;;
        Js.Done (fst (replay prev_hist next_hist segments diff))
      else Js.Done segments
  | _, _ => Js.TypeError
  end.

(** The second loop of [getSegmentFromHistory], from [segments = ""]. *)
Definition attribute_pairs (history : list HistoryItem) (change_indices : list nat)
    : Js.outcome string :=
  fold_left
    (fun acc i => segments <- acc ;; process_pair history change_indices segments i)
    (seq 0 (List.length change_indices - 1))
    (Js.Done "").

(** [getSegmentFromHistory(history)]. *)
Definition getSegmentFromHistory (history : list HistoryItem) : Js.outcome string :=
  change_indices <- change_indices_of history ;;
  attribute_pairs history change_indices.

End Attribution.

(** ** Run-length compression *)

(** [getUserColor(user)]: the hash colour.  The table [userColors] only
    memoises the values computed here, so the result does not depend on it. *)
Definition getUserColor (user : string) : string :=
  let hash :=
    fold_left (fun hash code => (code + (Js.shl hash 5 - hash))%Z)
              (Js.char_codes user) 0%Z in
  ("#" ++ Js.padStart (Js.to_hex 8 (Js.shl (Js.band hash 16777215) 0)) 6 "0")%string.

(** [color_dict[key]] after the two overrides; [key] is [segments[i]]. *)
Definition color_dict (key : option ascii) : option string :=
  match key with
  | Some c =>
      if Ascii.eqb c "b" then Some "red"
      else if Ascii.eqb c "T" then Some "blue"
      else if Ascii.eqb c "_" then Some (getUserColor "underscore")
      else None
  | None => None
  end.

Definition opt_ascii_eqb (a b : option ascii) : bool :=
  match a, b with
  | Some x, Some y => Ascii.eqb x y
  | None, None => true
  | _, _ => false
  end.

(** [groups[groups.length - 1].end += 1]. *)
Fixpoint extend_last (groups : list Group) : list Group :=
  match groups with
  | [] => []
  | [g] => [mkGroup (start g) (end_ g + 1) (color g) (char g)]
  | g :: rest => g :: extend_last rest
  end.

(** One round of [for (let i = 1; i < segments.length; i++)]. *)
Definition group_step (segments : string) (acc : Js.outcome (list Group)) (i : nat)
    : Js.outcome (list Group) :=
  groups <- acc ;;
  last_char <- Js.prop_of (Js.index groups (Z.of_nat (List.length groups) - 1)) char ;;
  if opt_ascii_eqb last_char (String.get i segments) then
    Js.Done (extend_last groups)
  else
    Js.Done (groups ++ [mkGroup i (i + 1) (color_dict (String.get i segments))
                                (String.get i segments)]).

(** [convert_segment_to_groups(segments)]. *)
Definition convert_segment_to_groups (segments : string) : Js.outcome (list Group) :=
  let groups :=
    [mkGroup 0 1 (color_dict (String.get 0 segments)) (String.get 0 segments)] in
  fold_left (group_step segments) (seq 1 (String.length segments - 1)) (Js.Done groups).

(** ** The rebuild *)

(** The template literal [`background-color: ${g.color}; opacity: 0.5;`]. *)
Definition style_of (g : Group) : string :=
  ("background-color: "
   ++ match color g with Some c => c | None => "undefined" end
   ++ "; opacity: 0.5;")%string.

Definition decoration_of (g : Group) : DecorationRange :=
  mkRange (start g) (end_ g) (style_of g).

Section Rebuild.

Variable diffChars : option string -> option string -> Js.outcome (list Change).

(** The two calls [getSegmentFromHistory(history)] and
    [convert_segment_to_groups(segment)] of [buildDecorations]. *)
Definition groups_of_history (history : list HistoryItem) : Js.outcome (list Group) :=
  segment <- getSegmentFromHistory diffChars history ;;
  convert_segment_to_groups segment.

(** The part of [buildDecorations] after the two awaits: [leaf] tells
    whether an active Markdown leaf exists and [fileVersions] is what
    [getFileVersions] resolved to.  The result pairs the attribution groups
    that were computed (none when [convert_segment_to_groups] is not
    reached) with the ranges added to the builder. *)
Definition rebuild (leaf : bool) (fileVersions : list HistoryItem)
    : Js.outcome (list Group * list DecorationRange) :=
  if negb leaf then Js.Done ([], [])
  else
    let history := fileVersions in
    if List.length history =? 0 then Js.Done ([], [])
    else if 1 <? List.length history then
      let history := rev history in
      groups <- groups_of_history history ;;
      Js.Done (groups, map decoration_of groups)
    else Js.Done ([], []).

(** [buildDecorations(view)]: the decoration set. *)
Definition buildDecorations (leaf : bool) (fileVersions : list HistoryItem)
    : Js.outcome (list DecorationRange) :=
  r <- rebuild leaf fileVersions ;;
  Js.Done (snd r).

End Rebuild.

(** ** A reference edit script *)

Module DiffModel.

(** Modelled from the spec: the package [diff] behind [Diff.diffChars] is
    not among the sources.  The spec asks for a minimal character-level
    edit script whose equal and inserted runs give the new text and whose
    equal and deleted runs give the old text; this is one such script
    (common characters are kept greedily, a deletion is preferred on a
    tie), grouped into runs.  It instantiates the parameter [diffChars]
    on concrete histories; a missing text makes it throw, as a call of a
    string method on [undefined] does. *)
Inductive edit : Type :=
| Keep (c : ascii)
| Ins (c : ascii)
| Del (c : ascii).

Definition cost_of (e : edit) : nat :=
  match e with Keep _ => 0 | _ => 1 end.

Definition cost (es : list edit) : nat :=
  fold_right (fun e n => cost_of e + n) 0 es.

Fixpoint script (old new : list ascii) : list edit :=
  match old with
  | [] => map Ins new
  | x :: old' =>
      (fix against (new : list ascii) : list edit :=
         match new with
         | [] => map Del (x :: old')
         | y :: new' =>
             if Ascii.eqb x y then Keep x :: script old' new'
             else
               let del := Del x :: script old' (y :: new') in
               let ins := Ins y :: against new' in
               if cost del <=? cost ins then del else ins
         end) new
  end.

Definition change_of (e : edit) : Change :=
  match e with
  | Keep c => mkChange (String c "") 1 false false
  | Ins c => mkChange (String c "") 1 true false
  | Del c => mkChange (String c "") 1 false true
  end.

Definition same_kind (a b : Change) : bool :=
  Bool.eqb (added a) (added b) && Bool.eqb (removed a) (removed b).

Fixpoint runs (es : list edit) : list Change :=
  match es with
  | [] => []
  | e :: es' =>
      let c := change_of e in
      match runs es' with
      | r :: rs =>
          if same_kind c r
          then mkChange (value c ++ value r) (count c + count r) (added r) (removed r) :: rs
          else c :: r :: rs
      | [] => [c]
      end
  end.

Definition diffChars (old new : option string) : Js.outcome (list Change) :=
  match old, new with
  | Some o, Some n =>
      Js.Done (runs (script (list_ascii_of_string o) (list_ascii_of_string n)))
  | _, _ => Js.TypeError
  end.

End DiffModel.

(** ** Concrete histories *)

(** A snapshot with a text; the pipeline never reads [mtime] and [size]. *)
Definition snap (u c : string) : HistoryItem := mkHistoryItem 0 u 0 (Some c).

Definition bean : string := "bean_machine".
Definition bident : string := "Bident-of-Thassa.local".

(** [strictly_increasing l]: every element is below its successor. *)
Fixpoint strictly_increasing (l : list nat) : bool :=
  match l with
  | a :: (b :: _) as rest => (a <? b) && strictly_increasing rest
  | _ => true
  end.

(** [climbs cur l n]: [l] lists the values [current_index] takes after
    [cur], each above the one before, none above [n], the last one [n];
    and [l] is empty exactly when [cur] is already [n]. *)
Fixpoint climbs (cur : nat) (l : list nat) (n : nat) : Prop :=
  match l with
  | [] => cur = n
  | x :: l' => cur < x /\ x <= n /\ climbs x l' n
  end.

(** [tiles k groups n]: the groups, in order, are the consecutive
    non-empty intervals of a subdivision of [k, n). *)
Fixpoint tiles (k : nat) (groups : list Group) (n : nat) : Prop :=
  match groups with
  | [] => k = n
  | g :: rest => start g = k /\ start g < end_ g /\ tiles (end_ g) rest n
  end.

(** No two neighbours carry the same label. *)
Fixpoint adjacent_distinct (groups : list Group) : Prop :=
  match groups with
  | g :: (g' :: _) as rest => char g <> char g' /\ adjacent_distinct rest
  | _ => True
  end.

(** Every group carries the label of each buffer index it covers, and the
    colour [color_dict] gives that label. *)
Definition labelled (segments : string) (groups : list Group) : Prop :=
  Forall (fun g =>
            color g = color_dict (char g)
            /\ forall i, start g <= i < end_ g -> String.get i segments = char g)
         groups.

(** What holds of the array [groups] once the loop has passed the indices
    below [k]. *)
Definition groups_upto (segments : string) (k : nat) (acc : Js.outcome (list Group)) : Prop :=
  exists init g,
    acc = Js.Done (init ++ [g])
    /\ tiles 0 (init ++ [g]) k
    /\ adjacent_distinct (init ++ [g])
    /\ labelled segments (init ++ [g]).

(** Oldest first: timestamps never decrease along the list. *)
Fixpoint oldest_first (history : list HistoryItem) : bool :=
  match history with
  | a :: (b :: _) as rest => (mtime a <=? mtime b)%Z && oldest_first rest
  | _ => true
  end.

(** Newest first: timestamps never increase along the list. *)
Fixpoint newest_first (history : list HistoryItem) : bool :=
  match history with
  | a :: (b :: _) as rest => (mtime b <=? mtime a)%Z && newest_first rest
  | _ => true
  end.

Module SpecSequencer.

(** The Snapshot Sequencer in the spec's words, for comparison with
    [history.reverse()]: the same snapshots oldest first, snapshots with
    equal timestamps in their original relative order (a stable insertion
    sort on [mtime]). *)
Fixpoint insert (x : HistoryItem) (sorted : list HistoryItem) : list HistoryItem :=
  match sorted with
  | [] => [x]
  | y :: rest =>
      if (mtime x <=? mtime y)%Z then x :: y :: rest else y :: insert x rest
  end.

Definition sequence (history : list HistoryItem) : list HistoryItem :=
  fold_right insert [] history.

End SpecSequencer.

(** The edit-script runs [equal], [inserted] and [deleted]. *)
Definition equal (v : string) : Change := mkChange v (String.length v) false false.
Definition inserted (v : string) : Change := mkChange v (String.length v) true false.
Definition deleted (v : string) : Change := mkChange v (String.length v) false true.

(** The number of characters an edit script runs over, and the runs
    that are not deletions. *)
Definition total_count (script : list Change) : nat :=
  fold_right (fun c n => count c + n) 0 script.

Definition keeps_or_inserts (c : Change) : bool := added c || negb (removed c).

(** Versions as the backend may hand them over: already oldest first, and
    two versions with one timestamp. *)
Definition versions_oldest_first : list HistoryItem :=
  [mkHistoryItem 1 bean 5 (Some "hello");
   mkHistoryItem 2 bident 11 (Some "hello world")].

Definition versions_tied : list HistoryItem :=
  [mkHistoryItem 5 bean 5 (Some "hello");
   mkHistoryItem 5 bident 11 (Some "hello world")].

(** ** Notions for the further properties *)

Definition user_at (history : list HistoryItem) (i : nat) : option string :=
  nth_error (map user history) i.

Definition change_point (history : list HistoryItem) (c : nat) : Prop :=
  0 < c < List.length history /\ user_at history c <> user_at history (c - 1).

(** The snapshot with its [mtime] and [size] blanked. *)
Definition user_and_content (h : HistoryItem) : HistoryItem :=
  mkHistoryItem 0 (user h) 0 (content h).

(** [s.slice(k)]: what is left of [s] after its first [k] characters. *)
Definition drop (k : nat) (s : string) : string :=
  substring k (String.length s - k) s.

(** The labels a script without deletions writes, run by run: the
    incoming author's for an inserted run, the outgoing author's for an
    equal run. *)
Definition written (prev_hist next_hist : HistoryItem) (script : list Change) : string :=
  fold_right
    (fun c acc =>
       (Js.repeat (getCharFromUser (user (if added c then next_hist else prev_hist)))
                  (count c) ++ acc)%string)
    "" script.

(** The characters [getCharFromUser] and the padding can put in the buffer. *)
Definition is_label (c : ascii) : bool :=
  Ascii.eqb c "b" || Ascii.eqb c "T" || Ascii.eqb c "_".

Fixpoint all_labels (s : string) : bool :=
  match s with
  | EmptyString => true
  | String c s' => is_label c && all_labels s'
  end.

(** Run-length decoding: every group written out as its label repeated
    over its interval (nothing for an undefined label). *)
Definition expand (groups : list Group) : string :=
  fold_right
    (fun g acc =>
       (match char g with
        | Some c => Js.repeat (String c "") (end_ g - start g)
        | None => ""
        end ++ acc)%string)
    "" groups.

(** The colours a group can carry. *)
Definition known_color (c : option string) : bool :=
  match c with
  | Some s => (s =? "red")%string || (s =? "blue")%string
              || (s =? getUserColor "underscore")%string
  | None => false
  end.

(** The digits of [toString(16)]. *)
Definition is_hex (c : ascii) : bool :=
  existsb (Ascii.eqb c) (list_ascii_of_string "0123456789abcdef").

Fixpoint all_hex (s : string) : bool :=
  match s with
  | EmptyString => true
  | String c s' => is_hex c && all_hex s'
  end.

Section UserColors.

(** The names the prototype of the object literal [{}] defines: for these,
    [userColors[user]] finds a method where no colour was stored.  The
    table is a parameter. *)
Variable inherited : string -> bool.

(** What [this.userColors[user]] evaluates to: a stored colour, something
    inherited, or [undefined] ([None]). *)
Inductive lookup_result : Type :=
| Stored (color : string)
| FromPrototype.

(** The own properties of [userColors], the latest assignment first. *)
Fixpoint own (userColors : list (string * string)) (user : string) : option string :=
  match userColors with
  | [] => None
  | (u, c) :: rest => if (u =? user)%string then Some c else own rest user
  end.

Definition read (userColors : list (string * string)) (user : string)
    : option lookup_result :=
  match own userColors user with
  | Some c => Some (Stored c)
  | None => if inherited user then Some FromPrototype else None
  end.

(** JavaScript truthiness of the lookup: [undefined] and the empty string
    are falsy. *)
Definition truthy (v : option lookup_result) : bool :=
  match v with
  | Some (Stored c) => negb (c =? "")%string
  | Some FromPrototype => true
  | None => false
  end.

(** [getUserColor(user)] with its table: the value returned and the table
    afterwards.  [getUserColor] above is the colour computed inside the
    [if]. *)
Definition getUserColor_memo (userColors : list (string * string)) (user : string)
    : option lookup_result * list (string * string) :=
  if negb (truthy (read userColors user)) then
    let color := getUserColor user in
    let userColors := (user, color) :: userColors in
    (read userColors user, userColors)
  else (read userColors user, userColors).

(** Every stored colour is the one [getUserColor] computes. *)
Definition table_sound (userColors : list (string * string)) : Prop :=
  forall u c, own userColors u = Some c -> c = getUserColor u.

End UserColors.

(** [follows history cur l]: each index of [l] is what
    [findNextChangeIndex] returns for the one before it, [cur] first. *)
Fixpoint follows (history : list HistoryItem) (cur : nat) (l : list nat) : Prop :=
  match l with
  | [] => True
  | x :: l' => x = findNextChangeIndex history cur /\ follows history x l'
  end.

(** The last snapshot of a run: the last of the history, or one whose
    successor has another user. *)
Definition run_end (history : list HistoryItem) (j : nat) : Prop :=
  j + 1 = List.length history \/ change_point history (j + 1).

(** ** Fetching the versions *)

(** What [getFileVersions] reads of an element of [history.items]. *)
Record VersionItem : Type := mkVersionItem {
  uid : string;
  device : string
}.

(** What [getFileVersions] calls on [sync.instance], the awaited calls
    taken to resolve: [getHistory(path)] gives the items of the history or
    nothing, [getContentForVersion(uid)] a buffer or [undefined]. *)
Record SyncInstance (Buffer : Type) : Type := mkSyncInstance {
  getHistory : string -> option (list VersionItem);
  getContentForVersion : string -> option Buffer
}.

Arguments getHistory {Buffer} _ _.
Arguments getContentForVersion {Buffer} _ _.
Arguments mkSyncInstance {Buffer} _ _.

(** [getFileVersions(leaf)]: [sync] is the sync plugin if there is one,
    [file] the path of the file of the leaf if there is one, and [decode]
    is [decoder.decode] of the platform's [TextDecoder], which is handed
    whatever [getContentForVersion] gave.  The objects built have a [user]
    and a [content] and nothing else; [mtime] and [size], which nothing
    reads, are put to 0. *)
Definition getFileVersions {Buffer : Type} (decode : option Buffer -> string)
    (sync : option (SyncInstance Buffer)) (file : option string)
    : list HistoryItem :=
  match sync with
  | None => []
  | Some instance =>
      match file with
      | None => []
      | Some path =>
          match getHistory instance path with
          | None => []
          | Some items =>
              map (fun item =>
                     let buffer := getContentForVersion instance (uid item) in
                     mkHistoryItem 0 (device item) 0 (Some (decode buffer)))
                  items
          end
      end
  end.

(** A backend with three versions, newest first, the middle one without
    a content. *)
Definition backend_with_gap {Buffer : Type} (newest oldest : Buffer)
    : SyncInstance Buffer :=
  mkSyncInstance
    (fun _ => Some [mkVersionItem "v3" bean; mkVersionItem "v2" bident;
                    mkVersionItem "v1" bean])
    (fun u => if (u =? "v3")%string then Some newest
              else if (u =? "v1")%string then Some oldest
              else None).

(** A decoder of buffers that hold plain text; [decode(undefined)] is the
    empty string. *)
Definition decode_text (buffer : option string) : string :=
  match buffer with
  | Some text => text
  | None => ""
  end.

Arguments getCharFromUser : simpl never.
Arguments replace_chars : simpl never.

(** * Properties *)

(** ** The boundary scan *)

Lemma findNextChangeIndex_bounds (history : list HistoryItem) (startingIndex : nat) :
  startingIndex < List.length history ->
  startingIndex < findNextChangeIndex history startingIndex <= List.length history.
Proof.
  intros Hlt. unfold findNextChangeIndex.
  destruct (find _ _) as [i|] eqn:Hfind.
  - apply find_some in Hfind. destruct Hfind as [Hin _].
    apply in_seq in Hin. rewrite length_map in Hin. lia.
  - lia.
Qed.

Lemma scan_boundaries_climbs (fuel : nat) (history : list HistoryItem) :
  forall (current_index : nat) (change_indices : list nat),
    current_index <= List.length history ->
    List.length history - current_index <= fuel ->
    exists l,
      scan_boundaries fuel history current_index change_indices
        = Js.Done (change_indices ++ l)
      /\ climbs current_index l (List.length history).
Proof.
  induction fuel as [|fuel IH]; intros cur acc Hle Hfuel; simpl.
  - assert (cur = List.length history) as -> by lia.
    rewrite Nat.eqb_refl. exists []. rewrite app_nil_r. split; reflexivity.
  - destruct (cur =? List.length history) eqn:Heq.
    + apply Nat.eqb_eq in Heq. exists []. rewrite app_nil_r. split; [reflexivity|exact Heq].
    + apply Nat.eqb_neq in Heq.
      assert (Hlt : cur < List.length history) by lia.
      pose proof (findNextChangeIndex_bounds history cur Hlt) as Hb.
      destruct (IH (findNextChangeIndex history cur)
                   (acc ++ [findNextChangeIndex history cur])) as [l [Hrun Hcl]];
        [lia | lia |].
      exists (findNextChangeIndex history cur :: l). split.
      * rewrite Hrun, <- app_assoc. reflexivity.
      * simpl. repeat split; try lia. exact Hcl.
Qed.

Lemma climbs_last (cur : nat) (l : list nat) (n : nat) :
  climbs cur l n -> cur < n -> exists l', l = l' ++ [n].
Proof.
  revert cur. induction l as [|x l IH]; intros cur Hcl Hlt; simpl in Hcl.
  - lia.
  - destruct Hcl as [Hcx [Hxn Hcl]].
    destruct (Nat.eq_dec x n) as [->|Hne].
    + destruct l as [|y l].
      * exists []. reflexivity.
      * simpl in Hcl. lia.
    + destruct (IH x Hcl ltac:(lia)) as [l' ->].
      exists (x :: l'). reflexivity.
Qed.

Lemma climbs_increasing (cur : nat) (l : list nat) (n : nat) :
  climbs cur l n -> strictly_increasing (cur :: l) = true.
Proof.
  revert cur. induction l as [|x l IH]; intros cur Hcl.
  - reflexivity.
  - simpl in Hcl. destruct Hcl as [Hcx [_ Hcl]].
    change (((cur <? x) && strictly_increasing (x :: l)) = true).
    rewrite (IH x Hcl), andb_true_r. apply Nat.ltb_lt. exact Hcx.
Qed.

Lemma strictly_increasing_tail (a : nat) (l : list nat) :
  strictly_increasing (a :: l) = true -> strictly_increasing l = true.
Proof.
  destruct l as [|b l]; [reflexivity|].
  intros H. change (((a <? b) && strictly_increasing (b :: l)) = true) in H.
  apply andb_true_iff in H. tauto.
Qed.

Lemma strictly_increasing_repeat_last (l : list nat) (n : nat) :
  strictly_increasing (l ++ [n; n]) = false.
Proof.
  induction l as [|a l IH].
  - simpl. rewrite Nat.ltb_irrefl. reflexivity.
  - destruct l as [|b l].
    + simpl. rewrite Nat.ltb_irrefl. apply andb_false_r.
    + change (((a <? b) && strictly_increasing ((b :: l) ++ [n; n])) = false).
      rewrite IH. apply andb_false_r.
Qed.

(** C10: the boundary scan terminates.  While [current_index] is below
    [history.length], [findNextChangeIndex] returns a larger index that is
    at most [history.length], and the loop started at 0 finishes within
    [history.length] rounds, its indices climbing up to [history.length]. *)
Theorem scan_boundaries_terminates (history : list HistoryItem) :
  (forall current_index,
      current_index < List.length history ->
      current_index < findNextChangeIndex history current_index <= List.length history)
  /\ (exists change_indices,
         scan_boundaries (List.length history) history 0 [] = Js.Done change_indices
         /\ climbs 0 change_indices (List.length history)).
Proof.
  split.
  - intros cur Hlt. apply findNextChangeIndex_bounds. exact Hlt.
  - destruct (scan_boundaries_climbs (List.length history) history 0 [])
      as [l [Hrun Hcl]]; [lia | lia |].
    exists l. split; assumption.
Qed.

Lemma scan_boundaries_terminates_witness :
  0 < findNextChangeIndex [snap bean "ab"; snap bident "axb"; snap bean "axyb"] 0 <= 3.
Proof.
  apply (proj1 (scan_boundaries_terminates
                  [snap bean "ab"; snap bident "axb"; snap bean "axyb"]) 0).
  simpl. lia.
Defined.

(** C4: on every history that is not empty the index list ends with
    [history.length] twice: the loop already pushes it, and the push after
    the loop repeats it.  Up to the first of the two the list is strictly
    increasing; as a whole it is not. *)
Theorem change_indices_repeat_sentinel (history : list HistoryItem) :
  history <> [] ->
  exists interior,
    change_indices_of history
      = Js.Done (interior ++ [List.length history; List.length history])
    /\ strictly_increasing (interior ++ [List.length history]) = true
    /\ strictly_increasing (interior ++ [List.length history; List.length history]) = false.
Proof.
  intros Hne.
  assert (Hpos : 0 < List.length history)
    by (destruct history; [congruence | simpl; lia]).
  destruct (scan_boundaries_climbs (List.length history) history 0 [])
    as [l [Hrun Hcl]]; [lia | lia |].
  destruct (climbs_last 0 l _ Hcl Hpos) as [interior ->].
  exists interior. split; [|split].
  - unfold change_indices_of. rewrite Hrun. simpl.
    rewrite <- app_assoc. reflexivity.
  - apply climbs_increasing in Hcl.
    apply strictly_increasing_tail in Hcl. exact Hcl.
  - apply strictly_increasing_repeat_last.
Qed.

Lemma change_indices_repeat_sentinel_witness :
  exists interior,
    change_indices_of [snap bean "ab"]
      = Js.Done (interior ++ [1; 1])
    /\ strictly_increasing (interior ++ [1]) = true
    /\ strictly_increasing (interior ++ [1; 1]) = false.
Proof.
  apply (change_indices_repeat_sentinel [snap bean "ab"]). discriminate.
Defined.

(** ** Replaying edit scripts on concrete histories *)

Lemma label_cases (u : string) :
  getCharFromUser u = "b" \/ getCharFromUser u = "T" \/ getCharFromUser u = "_".
Proof.
  unfold getCharFromUser.
  destruct (u =? "bean_machine")%string; [tauto|].
  destruct (u =? "Bident-of-Thassa.local")%string; tauto.
Qed.

Lemma label_length (u : string) : String.length (getCharFromUser u) = 1.
Proof.
  destruct (label_cases u) as [-> | [-> | ->]]; reflexivity.
Qed.

Lemma labels_differ_users_differ (A B : string) :
  getCharFromUser A <> getCharFromUser B -> A <> B.
Proof.
  intros Hne ->. apply Hne. reflexivity.
Qed.

(** Evaluate [findNextChangeIndex] on a list of [snap]s whose users are
    variables, given the outcomes of the comparisons between them. *)
Ltac next_index Hab Hba :=
  unfold findNextChangeIndex, snap; simpl;
  rewrite ?Hab, ?Hba, ?String.eqb_refl; reflexivity.

(** Decide the labels of the authors and compute. *)
Ltac by_labels A B :=
  let HA := fresh "HA" in
  let HB := fresh "HB" in
  destruct (label_cases A) as [HA | [HA | HA]];
  destruct (label_cases B) as [HB | [HB | HB]];
  rewrite ?HA, ?HB in *;
  try reflexivity; try congruence.

Lemma change_indices_two (A B : string) (x y : option string) :
  A <> B ->
  change_indices_of [mkHistoryItem 0 A 0 x; mkHistoryItem 0 B 0 y] = Js.Done [1; 2; 2].
Proof.
  intros Hne.
  assert (Hab : (A =? B)%string = false) by (apply String.eqb_neq; exact Hne).
  assert (Hba : (B =? A)%string = false) by (rewrite String.eqb_sym; exact Hab).
  set (h := [mkHistoryItem 0 A 0 x; mkHistoryItem 0 B 0 y]).
  assert (F0 : findNextChangeIndex h 0 = 1) by next_index Hab Hba.
  assert (F1 : findNextChangeIndex h 1 = 2) by next_index Hab Hba.
  unfold change_indices_of. cbn [List.length h scan_boundaries Nat.eqb].
  fold h. rewrite !F0. cbn [Nat.eqb]. rewrite !F1. reflexivity.
Qed.

Lemma change_indices_three (A B : string) (x y z : option string) :
  A <> B ->
  change_indices_of
    [mkHistoryItem 0 A 0 x; mkHistoryItem 0 B 0 y; mkHistoryItem 0 A 0 z]
  = Js.Done [1; 2; 3; 3].
Proof.
  intros Hne.
  assert (Hab : (A =? B)%string = false) by (apply String.eqb_neq; exact Hne).
  assert (Hba : (B =? A)%string = false) by (rewrite String.eqb_sym; exact Hab).
  set (h := [mkHistoryItem 0 A 0 x; mkHistoryItem 0 B 0 y; mkHistoryItem 0 A 0 z]).
  assert (F0 : findNextChangeIndex h 0 = 1) by next_index Hab Hba.
  assert (F1 : findNextChangeIndex h 1 = 2) by next_index Hab Hba.
  assert (F2 : findNextChangeIndex h 2 = 3) by next_index Hab Hba.
  unfold change_indices_of. cbn [List.length h scan_boundaries Nat.eqb].
  fold h. rewrite !F0. cbn [Nat.eqb]. rewrite !F1. cbn [Nat.eqb]. rewrite !F2.
  reflexivity.
Qed.

(** C1 as the code has it: on A:"ab", B:"axb", A:"axyb" the two replays
    leave the labels B, B, A, B on the indices 0 to 3.  The equal runs of
    the second pair carry the outgoing author B and overwrite what the
    first pair wrote there, and the padding written for index 3 too. *)
Theorem three_snapshots_outgoing_author_wins
    (diffChars : option string -> option string -> Js.outcome (list Change))
    (A B : string) :
  A <> B ->
  diffChars (Some "ab") (Some "axb")
    = Js.Done [equal "a"; inserted "x"; equal "b"] ->
  diffChars (Some "axb") (Some "axyb")
    = Js.Done [equal "ax"; inserted "y"; equal "b"] ->
  getSegmentFromHistory diffChars [snap A "ab"; snap B "axb"; snap A "axyb"]
  = Js.Done (getCharFromUser B ++ getCharFromUser B
             ++ getCharFromUser A ++ getCharFromUser B)%string.
Proof.
  intros Hne H1 H2.
  assert (Hab : (A =? B)%string = false) by (apply String.eqb_neq; exact Hne).
  assert (Hba : (B =? A)%string = false) by (rewrite String.eqb_sym; exact Hab).
  unfold getSegmentFromHistory, snap.
  rewrite (change_indices_three A B _ _ _ Hne).
  unfold attribute_pairs, process_pair. simpl.
  rewrite Hab, Hba, String.eqb_refl. simpl.
  rewrite H1. simpl. rewrite H2. unfold replay. simpl.
  by_labels A B.
Qed.

Lemma three_snapshots_outgoing_author_wins_witness :
  getSegmentFromHistory DiffModel.diffChars
    [snap bean "ab"; snap bident "axb"; snap bean "axyb"]
  = Js.Done "TTbT".
Proof.
  apply (three_snapshots_outgoing_author_wins DiffModel.diffChars bean bident).
  - discriminate.
  - reflexivity.
  - reflexivity.
Defined.

(** C1 as stated fails: with the two known authors the buffer does not
    read A, B, A, A ("bTbb"). *)
Lemma three_snapshots_not_last_author :
  getSegmentFromHistory DiffModel.diffChars
    [snap bean "ab"; snap bident "axb"; snap bean "axyb"]
  = Js.Done "TTbT"
  /\ ~ (exists segments,
          getSegmentFromHistory DiffModel.diffChars
            [snap bean "ab"; snap bident "axb"; snap bean "axyb"]
          = Js.Done segments
          /\ String.get 0 segments = String.get 0 (getCharFromUser bean)
          /\ String.get 1 segments = String.get 0 (getCharFromUser bident)
          /\ String.get 2 segments = String.get 0 (getCharFromUser bean)
          /\ String.get 3 segments = String.get 0 (getCharFromUser bean)).
Proof.
  split; [reflexivity|].
  intros [segments [Hrun [H0 _]]].
  vm_compute in Hrun. injection Hrun as <-.
  vm_compute in H0. discriminate.
Qed.

(** C2: on "abcde" (A) then "ace" (B) the buffer ends with length 1, not
    with the length 3 of the later snapshot: each deleted run moves the
    cursor back, so the three equal runs all write index 0. *)
Theorem deletion_history_buffer_length
    (diffChars : option string -> option string -> Js.outcome (list Change))
    (A B : string) :
  A <> B ->
  diffChars (Some "abcde") (Some "ace")
    = Js.Done [equal "a"; deleted "b"; equal "c"; deleted "d"; equal "e"] ->
  getSegmentFromHistory diffChars [snap A "abcde"; snap B "ace"]
    = Js.Done (getCharFromUser A)
  /\ String.length (getCharFromUser A) = 1.
Proof.
  intros Hne H1.
  assert (Hab : (A =? B)%string = false) by (apply String.eqb_neq; exact Hne).
  split; [|apply label_length].
  unfold getSegmentFromHistory, snap.
  rewrite (change_indices_two A B _ _ Hne).
  unfold attribute_pairs, process_pair. simpl.
  rewrite Hab, String.eqb_refl. simpl.
  rewrite H1. unfold replay. simpl.
  by_labels A B.
Qed.

Lemma deletion_history_buffer_length_witness :
  getSegmentFromHistory DiffModel.diffChars [snap bean "abcde"; snap bident "ace"]
    = Js.Done "b"
  /\ String.length "b" = 1.
Proof.
  apply (deletion_history_buffer_length DiffModel.diffChars bean bident).
  - discriminate.
  - reflexivity.
Defined.

(** C3: a deleted run of length L leaves the cursor L below where it was.
    On the buffer "bbb" (from "abc") the script to "ax" keeps "a", deletes
    "bc" and inserts "x": after the deletion the cursor is at -1, not at 1,
    and the inserted label lands before the kept one ("Tb", not "bT").
    The history "" (B), "abc" (A), "ax" (B) runs into exactly this. *)
Theorem deleted_run_moves_cursor_back :
  (forall prev_hist next_hist segments offset v,
      snd (replay_change prev_hist next_hist (segments, offset) (deleted v))
      = (offset - Z.of_nat (String.length v))%Z)
  /\ replay (snap bean "abc") (snap bident "ax") "bbb"
       [equal "a"; deleted "bc"] = ("b", (-1)%Z)
  /\ replay (snap bean "abc") (snap bident "ax") "bbb"
       [equal "a"; deleted "bc"; inserted "x"] = ("Tb", 0%Z)
  /\ getSegmentFromHistory DiffModel.diffChars
       [snap bident ""; snap bean "abc"; snap bident "ax"] = Js.Done "Tb".
Proof.
  split; [|split; [|split]].
  - intros. reflexivity.
  - reflexivity.
  - reflexivity.
  - reflexivity.
Qed.

(** C7 as the code has it: when the labels of A and B differ, "hello" (A)
    then "hello world" (B) gives the two groups [0,5) and [5,11) carrying
    the label of A and the label of B, also through the rebuild, which is
    handed the versions newest first. *)
Theorem append_history_two_groups
    (diffChars : option string -> option string -> Js.outcome (list Change))
    (A B : string) :
  getCharFromUser A <> getCharFromUser B ->
  diffChars (Some "hello") (Some "hello world")
    = Js.Done [equal "hello"; inserted " world"] ->
  let label_A := String.get 0 (getCharFromUser A) in
  let label_B := String.get 0 (getCharFromUser B) in
  let groups :=
    [mkGroup 0 5 (color_dict label_A) label_A;
     mkGroup 5 11 (color_dict label_B) label_B] in
  groups_of_history diffChars [snap A "hello"; snap B "hello world"]
    = Js.Done groups
  /\ rebuild diffChars true [snap B "hello world"; snap A "hello"]
    = Js.Done (groups, map decoration_of groups).
Proof.
  intros Hlab H1.
  pose proof (labels_differ_users_differ A B Hlab) as Hne.
  assert (Hab : (A =? B)%string = false) by (apply String.eqb_neq; exact Hne).
  assert (Hrun : getSegmentFromHistory diffChars [snap A "hello"; snap B "hello world"]
                 = Js.Done (Js.repeat (getCharFromUser A) 5
                            ++ Js.repeat (getCharFromUser B) 6)%string).
  { unfold getSegmentFromHistory, snap.
    rewrite (change_indices_two A B _ _ Hne).
    unfold attribute_pairs, process_pair. simpl.
    rewrite Hab, String.eqb_refl. simpl.
    rewrite H1. unfold replay. simpl.
    by_labels A B. }
  assert (Hgroups : groups_of_history diffChars [snap A "hello"; snap B "hello world"]
          = Js.Done
              [mkGroup 0 5 (color_dict (String.get 0 (getCharFromUser A)))
                       (String.get 0 (getCharFromUser A));
               mkGroup 5 11 (color_dict (String.get 0 (getCharFromUser B)))
                       (String.get 0 (getCharFromUser B))]).
  { unfold groups_of_history. rewrite Hrun. simpl Js.bind.
    by_labels A B. }
  split.
  - exact Hgroups.
  - unfold rebuild. simpl rev. simpl negb. cbv iota.
    change (List.length [snap B "hello world"; snap A "hello"]) with 2.
    simpl Nat.eqb. simpl Nat.ltb. cbv iota.
    rewrite Hgroups. reflexivity.
Qed.

Lemma append_history_two_groups_witness :
  groups_of_history DiffModel.diffChars [snap bean "hello"; snap bident "hello world"]
    = Js.Done [mkGroup 0 5 (Some "red") (Some "b"%char);
               mkGroup 5 11 (Some "blue") (Some "T"%char)]
  /\ rebuild DiffModel.diffChars true [snap bident "hello world"; snap bean "hello"]
    = Js.Done ([mkGroup 0 5 (Some "red") (Some "b"%char);
                mkGroup 5 11 (Some "blue") (Some "T"%char)],
               [mkRange 0 5 "background-color: red; opacity: 0.5;";
                mkRange 5 11 "background-color: blue; opacity: 0.5;"]).
Proof.
  apply (append_history_two_groups DiffModel.diffChars bean bident).
  - discriminate.
  - reflexivity.
Defined.

(** C7 as stated fails: two authors outside the fixed table share the
    label "_", and their history gives one group, not two. *)
Lemma append_history_unknown_authors_one_group :
  groups_of_history DiffModel.diffChars
    [snap "alice" "hello"; snap "bob" "hello world"]
  = Js.Done [mkGroup 0 11 (Some "#cf02ba") (Some "_"%char)]
  /\ ~ (exists g1 g2,
          groups_of_history DiffModel.diffChars
            [snap "alice" "hello"; snap "bob" "hello world"]
          = Js.Done [g1; g2]).
Proof.
  split; [reflexivity|].
  intros [g1 [g2 Hrun]]. vm_compute in Hrun. discriminate.
Qed.

(** C8: a history of zero or one snapshot yields no attribution group and
    no decoration, exactly as no history at all. *)
Theorem short_history_no_groups
    (diffChars : option string -> option string -> Js.outcome (list Change))
    (leaf : bool) (fileVersions : list HistoryItem) :
  List.length fileVersions <= 1 ->
  rebuild diffChars leaf fileVersions = Js.Done ([], [])
  /\ buildDecorations diffChars leaf fileVersions = Js.Done []
  /\ rebuild diffChars leaf fileVersions = rebuild diffChars leaf [].
Proof.
  intros Hlen.
  assert (Hrun : rebuild diffChars leaf fileVersions = Js.Done ([], [])).
  { unfold rebuild. destruct leaf; [|reflexivity]. simpl negb. cbv iota.
    destruct fileVersions as [|a [|b rest]]; try reflexivity.
    simpl in Hlen. lia. }
  split; [exact Hrun|]. split.
  - unfold buildDecorations. rewrite Hrun. reflexivity.
  - rewrite Hrun. destruct leaf; reflexivity.
Qed.

Lemma short_history_no_groups_witness :
  rebuild DiffModel.diffChars true [snap bean "hello"] = Js.Done ([], [])
  /\ buildDecorations DiffModel.diffChars true [snap bean "hello"] = Js.Done []
  /\ rebuild DiffModel.diffChars true [snap bean "hello"]
     = rebuild DiffModel.diffChars true [].
Proof.
  apply (short_history_no_groups DiffModel.diffChars true [snap bean "hello"]).
  simpl. lia.
Defined.

(** ** Run-length compression *)

Lemma opt_ascii_eqb_eq (a b : option ascii) :
  opt_ascii_eqb a b = true <-> a = b.
Proof.
  destruct a as [x|], b as [y|]; simpl; try (split; congruence).
  rewrite Ascii.eqb_eq. split; congruence.
Qed.

Lemma extend_last_snoc (init : list Group) (g : Group) :
  extend_last (init ++ [g])
  = init ++ [mkGroup (start g) (end_ g + 1) (color g) (char g)].
Proof.
  induction init as [|a init IH]; [reflexivity|].
  simpl. rewrite IH. destruct (init ++ [g]) eqn:Heq; [|reflexivity].
  destruct init; discriminate.
Qed.

Lemma index_last (init : list Group) (g : Group) :
  Js.index (init ++ [g]) (Z.of_nat (List.length (init ++ [g])) - 1) = Some g.
Proof.
  unfold Js.index. rewrite length_app. simpl List.length.
  replace (Z.of_nat (List.length init + 1) - 1)%Z with (Z.of_nat (List.length init)) by lia.
  destruct (Z.ltb_spec (Z.of_nat (List.length init)) 0); [lia|].
  rewrite Nat2Z.id, nth_error_app2 by lia.
  rewrite Nat.sub_diag. reflexivity.
Qed.

Lemma tiles_snoc (init : list Group) (g : Group) (k n : nat) :
  tiles k (init ++ [g]) n <-> tiles k init (start g) /\ start g < end_ g /\ end_ g = n.
Proof.
  revert k. induction init as [|a init IH]; intros k; simpl.
  - split.
    + intros [H1 [H2 H3]]. repeat split; congruence.
    + intros [H1 [H2 H3]]. repeat split; congruence.
  - rewrite IH. tauto.
Qed.

Lemma adjacent_distinct_snoc (init : list Group) (g g' : Group) :
  adjacent_distinct (init ++ [g]) ->
  char g <> char g' ->
  adjacent_distinct ((init ++ [g]) ++ [g']).
Proof.
  intros Hadj Hne. induction init as [|a init IH].
  - simpl. tauto.
  - destruct init as [|b init].
    + simpl in *. tauto.
    + simpl in Hadj. destruct Hadj as [Hab Hadj].
      change (char a <> char b /\ adjacent_distinct (((b :: init) ++ [g]) ++ [g'])).
      split; [exact Hab | exact (IH Hadj)].
Qed.

Lemma adjacent_distinct_extend (init : list Group) (g : Group) (e : nat) :
  adjacent_distinct (init ++ [g]) ->
  adjacent_distinct (init ++ [mkGroup (start g) e (color g) (char g)]).
Proof.
  induction init as [|a init IH]; [simpl; tauto|].
  destruct init as [|b init].
  - simpl. tauto.
  - intros [Hab Hadj].
    change (char a <> char b
            /\ adjacent_distinct ((b :: init) ++ [mkGroup (start g) e (color g) (char g)])).
    split; [exact Hab | exact (IH Hadj)].
Qed.

Lemma group_step_upto (segments : string) (k : nat) (acc : Js.outcome (list Group)) :
  groups_upto segments k acc ->
  groups_upto segments (k + 1) (group_step segments acc k).
Proof.
  intros [init [g [-> [Htiles [Hadj Hlab]]]]].
  apply tiles_snoc in Htiles. destruct Htiles as [Hinit [Hlt Hend]].
  apply Forall_app in Hlab. destruct Hlab as [Hlinit Hlg].
  apply Forall_inv in Hlg. destruct Hlg as [Hcol Hchars].
  unfold group_step. simpl Js.bind. rewrite index_last. simpl Js.prop_of.
  simpl Js.bind.
  destruct (opt_ascii_eqb (char g) (String.get k segments)) eqn:Hsame.
  - apply opt_ascii_eqb_eq in Hsame.
    exists init, (mkGroup (start g) (end_ g + 1) (color g) (char g)).
    rewrite extend_last_snoc. split; [reflexivity|]. split; [|split].
    + apply tiles_snoc. simpl. repeat split; try lia. exact Hinit.
    + apply adjacent_distinct_extend. exact Hadj.
    + apply Forall_app. split; [exact Hlinit|].
      constructor; [|constructor]. simpl. split; [exact Hcol|].
      intros i Hi. destruct (Nat.eq_dec i k) as [->|Hik].
      * symmetry. exact Hsame.
      * apply Hchars. lia.
  - assert (Hdiff : char g <> String.get k segments).
    { intros Heq. apply opt_ascii_eqb_eq in Heq. congruence. }
    exists (init ++ [g]),
      (mkGroup k (k + 1) (color_dict (String.get k segments)) (String.get k segments)).
    split; [reflexivity|]. split; [|split].
    + apply tiles_snoc. simpl. repeat split; try lia.
      apply tiles_snoc. repeat split; try lia. exact Hinit.
    + apply adjacent_distinct_snoc; assumption.
    + apply Forall_app. split.
      * apply Forall_app. split; [exact Hlinit|].
        constructor; [|constructor]. split; assumption.
      * constructor; [|constructor]. simpl. split; [reflexivity|].
        intros i Hi. replace i with k by lia. reflexivity.
Qed.

Lemma group_loop_upto (segments : string) (m : nat) :
  forall (k : nat) (acc : Js.outcome (list Group)),
    groups_upto segments k acc ->
    groups_upto segments (k + m) (fold_left (group_step segments) (seq k m) acc).
Proof.
  induction m as [|m IH]; intros k acc Hacc; simpl.
  - rewrite Nat.add_0_r. exact Hacc.
  - replace (k + S m) with (S k + m) by lia.
    apply IH. replace (S k) with (k + 1) by lia.
    apply group_step_upto. exact Hacc.
Qed.

(** On a buffer that is not empty the groups are the runs of the buffer:
    consecutive, non-empty, covering [0, N), neighbours with different
    labels, each carrying the label of the indices it covers. *)
Lemma groups_partition_nonempty (segments : string) :
  0 < String.length segments ->
  exists groups,
    convert_segment_to_groups segments = Js.Done groups
    /\ tiles 0 groups (String.length segments)
    /\ adjacent_distinct groups
    /\ labelled segments groups.
Proof.
  intros Hpos. unfold convert_segment_to_groups.
  set (g0 := mkGroup 0 1 (color_dict (String.get 0 segments)) (String.get 0 segments)).
  assert (Hbase : groups_upto segments 1 (Js.Done [g0])).
  { exists [], g0. split; [reflexivity|]. split; [|split].
    - simpl. lia.
    - exact I.
    - constructor; [|constructor]. simpl. split; [reflexivity|].
      intros i Hi. replace i with 0 by lia. reflexivity. }
  pose proof (group_loop_upto segments (String.length segments - 1) 1 _ Hbase) as Hloop.
  replace (1 + (String.length segments - 1)) with (String.length segments) in Hloop by lia.
  destruct Hloop as [init [g [Hrun Hrest]]].
  exists (init ++ [g]). split; [exact Hrun | exact Hrest].
Qed.

(** C5: on the empty buffer the result is the one group [0, 1) with an
    undefined label, which is no subdivision of [0, 0); the rebuild gets
    there on a history of two snapshots by one author, and adds the range
    [0, 1) to the decorations. *)
Theorem empty_buffer_one_group :
  convert_segment_to_groups "" = Js.Done [mkGroup 0 1 None None]
  /\ ~ tiles 0 [mkGroup 0 1 None None] 0
  /\ forall diffChars,
       rebuild diffChars true [snap bean "ab"; snap bean "a"]
       = Js.Done ([mkGroup 0 1 None None],
                  [mkRange 0 1 "background-color: undefined; opacity: 0.5;"]).
Proof.
  split; [reflexivity|]. split.
  - simpl. lia.
  - intros diffChars. reflexivity.
Qed.

(** ** The order of the snapshots *)

Lemma newest_first_head (a : HistoryItem) (l : list HistoryItem) :
  newest_first (a :: l) = true ->
  newest_first l = true /\ forall x, In x l -> (mtime x <= mtime a)%Z.
Proof.
  revert a. induction l as [|b l IH]; intros a H.
  - split; [reflexivity|]. intros x [].
  - change (((mtime b <=? mtime a)%Z && newest_first (b :: l)) = true) in H.
    apply andb_true_iff in H. destruct H as [Hba Hrest].
    apply Z.leb_le in Hba. split; [exact Hrest|].
    destruct (IH b Hrest) as [_ Hall].
    intros x [<- | Hin]; [exact Hba|].
    specialize (Hall x Hin). lia.
Qed.

Lemma oldest_first_snoc (l : list HistoryItem) (a : HistoryItem) :
  oldest_first l = true ->
  (forall x, In x l -> (mtime x <= mtime a)%Z) ->
  oldest_first (l ++ [a]) = true.
Proof.
  induction l as [|b l IH]; intros Hsorted Hall; [reflexivity|].
  destruct l as [|c l].
  - simpl. rewrite andb_true_r. apply Z.leb_le. apply Hall. left. reflexivity.
  - change (((mtime b <=? mtime c)%Z && oldest_first (c :: l)) = true) in Hsorted.
    apply andb_true_iff in Hsorted. destruct Hsorted as [Hbc Hrest].
    change (((mtime b <=? mtime c)%Z && oldest_first ((c :: l) ++ [a])) = true).
    rewrite Hbc. simpl andb. apply IH; [exact Hrest|].
    intros x Hin. apply Hall. right. exact Hin.
Qed.

Lemma newest_first_rev (l : list HistoryItem) :
  newest_first l = true -> oldest_first (rev l) = true.
Proof.
  induction l as [|a l IH]; intros H; [reflexivity|].
  destruct (newest_first_head a l H) as [Hrest Hall].
  simpl rev. apply oldest_first_snoc; [exact (IH Hrest)|].
  intros x Hin. apply Hall. apply in_rev. exact Hin.
Qed.

(** C6 as the code has it: the rebuild hands [getSegmentFromHistory] the
    versions in the reverse of the order it got them in, without reading a
    timestamp.  These are the same snapshots, and they are oldest first
    whenever the versions came newest first. *)
Theorem rebuild_processes_reversed
    (diffChars : option string -> option string -> Js.outcome (list Change))
    (fileVersions : list HistoryItem) :
  1 < List.length fileVersions ->
  rebuild diffChars true fileVersions
    = (groups <- groups_of_history diffChars (rev fileVersions) ;;
       Js.Done (groups, map decoration_of groups))
  /\ Permutation fileVersions (rev fileVersions)
  /\ (newest_first fileVersions = true -> oldest_first (rev fileVersions) = true).
Proof.
  intros Hlen. split; [|split].
  - unfold rebuild. simpl negb. cbv iota.
    destruct (Nat.eqb_spec (List.length fileVersions) 0) as [H0|_]; [lia|].
    destruct (Nat.ltb_spec 1 (List.length fileVersions)) as [_|Hge]; [reflexivity|lia].
  - apply Permutation_rev.
  - apply newest_first_rev.
Qed.

Lemma rebuild_processes_reversed_witness :
  rebuild DiffModel.diffChars true (rev versions_oldest_first)
    = (groups <- groups_of_history DiffModel.diffChars
                   (rev (rev versions_oldest_first)) ;;
       Js.Done (groups, map decoration_of groups))
  /\ Permutation (rev versions_oldest_first) (rev (rev versions_oldest_first))
  /\ oldest_first (rev (rev versions_oldest_first)) = true.
Proof.
  destruct (rebuild_processes_reversed DiffModel.diffChars (rev versions_oldest_first))
    as [Hrun [Hperm Hsorted]].
  - simpl. lia.
  - split; [exact Hrun|]. split; [exact Hperm|]. apply Hsorted. reflexivity.
Defined.

(** C6 as stated fails: versions that arrive oldest first are processed
    newest first, which is not what sorting by timestamp gives and changes
    the groups; and two versions with one timestamp are swapped. *)
Lemma reverse_is_not_a_stable_sort :
  oldest_first (rev versions_oldest_first) = false
  /\ rev versions_oldest_first <> SpecSequencer.sequence versions_oldest_first
  /\ rev versions_tied <> SpecSequencer.sequence versions_tied
  /\ rebuild DiffModel.diffChars true versions_oldest_first
     <> (groups <- groups_of_history DiffModel.diffChars
                     (SpecSequencer.sequence versions_oldest_first) ;;
         Js.Done (groups, map decoration_of groups)).
Proof.
  split; [reflexivity|]. split; [|split]; intros H; vm_compute in H; discriminate.
Qed.

(** ** Buffer lengths under a replay *)

Lemma length_append (a b : string) :
  String.length (a ++ b) = String.length a + String.length b.
Proof. induction a as [|c a IH]; simpl; [reflexivity | rewrite IH; reflexivity]. Qed.

Lemma length_substring (s : string) :
  forall n m, String.length (substring n m s) = Nat.min m (String.length s - n).
Proof.
  induction s as [|c s IH]; intros n m.
  - destruct n, m; reflexivity.
  - destruct n as [|n].
    + destruct m as [|m]; [reflexivity|]. simpl. rewrite IH, Nat.sub_0_r. reflexivity.
    + simpl. apply IH.
Qed.

Lemma length_repeat (c : string) (n : nat) :
  String.length (Js.repeat c n) = n * String.length c.
Proof.
  induction n as [|n IH]; simpl; [reflexivity|]. rewrite length_append, IH. reflexivity.
Qed.

Lemma len_slice (s : string) (a b : Z) :
  (0 <= a <= b)%Z ->
  Js.len (Js.slice s a b) = (Z.min b (Js.len s) - Z.min a (Js.len s))%Z.
Proof.
  intros Hab. unfold Js.slice, Js.clamp, Js.len.
  destruct (Z.ltb_spec a 0); [lia|]. destruct (Z.ltb_spec b 0); [lia|].
  rewrite length_substring. lia.
Qed.

Lemma len_replace_chars (s char : string) (offset : Z) (n : nat) :
  (0 <= offset)%Z ->
  String.length char = 1 ->
  Js.len (replace_chars s char offset n) = Z.max (Js.len s) (offset + Z.of_nat n).
Proof.
  intros Hoff Hchar. unfold replace_chars.
  set (padded := if (offset + Z.of_nat n >? Js.len s)%Z then _ else s).
  assert (Hpad : Js.len padded = Z.max (Js.len s) (offset + Z.of_nat n)).
  { subst padded. destruct (Z.gtb_spec (offset + Z.of_nat n) (Js.len s)).
    - unfold Js.len. rewrite length_append, length_repeat. simpl String.length.
      unfold Js.len in *. lia.
    - lia. }
  unfold Js.len at 1. rewrite !length_append, length_repeat, Hchar.
  pose proof (len_slice padded 0 offset ltac:(lia)) as H1.
  pose proof (len_slice padded (offset + Z.of_nat n) (Js.len padded) ltac:(lia)) as H2.
  unfold Js.len in *. lia.
Qed.

Lemma replay_change_without_deletion (prev_hist next_hist : HistoryItem)
    (segments : string) (offset : Z) (c : Change) :
  (0 <= offset)%Z ->
  keeps_or_inserts c = true ->
  let '(segments', offset') := replay_change prev_hist next_hist (segments, offset) c in
  offset' = (offset + Z.of_nat (count c))%Z
  /\ Js.len segments' = Z.max (Js.len segments) offset'.
Proof.
  intros Hoff Hk. unfold replay_change, keeps_or_inserts in *.
  destruct (added c); [|destruct (removed c); [discriminate|]];
    (split; [reflexivity | apply len_replace_chars; [exact Hoff | apply label_length]]).
Qed.

Lemma replay_without_deletions (prev_hist next_hist : HistoryItem) (script : list Change) :
  forallb keeps_or_inserts script = true ->
  forall segments,
    replay prev_hist next_hist segments script
    = (fst (replay prev_hist next_hist segments script), Z.of_nat (total_count script))
    /\ Js.len (fst (replay prev_hist next_hist segments script))
       = Z.max (Js.len segments) (Z.of_nat (total_count script)).
Proof.
  intros Hall. unfold replay.
  assert (Hgen : forall script segments offset,
             forallb keeps_or_inserts script = true ->
             (0 <= offset <= Js.len segments)%Z ->
             snd (fold_left (replay_change prev_hist next_hist) script (segments, offset))
             = (offset + Z.of_nat (total_count script))%Z
             /\ Js.len (fst (fold_left (replay_change prev_hist next_hist) script
                                       (segments, offset)))
                = Z.max (Js.len segments) (offset + Z.of_nat (total_count script))).
  { clear. induction script as [|c script IH]; intros segments offset Hall Hoff.
    - unfold total_count. simpl. split; lia.
    - simpl in Hall. apply andb_true_iff in Hall. destruct Hall as [Hc Hall].
      cbn [fold_left].
      pose proof (replay_change_without_deletion prev_hist next_hist segments offset c (proj1 Hoff) Hc) as Hstep.
      destruct (replay_change prev_hist next_hist (segments, offset) c) as [segments' offset'].
      destruct Hstep as [-> Hlen].
      destruct (IH segments' (offset + Z.of_nat (count c))%Z Hall ltac:(lia)) as [H1 H2].
      change (total_count (c :: script)) with (count c + total_count script).
      split; [lia|]. rewrite H2, Hlen. lia. }
  intros segments. destruct (Hgen script segments 0%Z Hall ltac:(unfold Js.len; lia)) as [H1 H2].
  destruct (fold_left _ script (segments, 0%Z)) as [segments' offset'].
  simpl in *. subst offset'. split; [reflexivity | exact H2].
Qed.

(** A deletion at a cursor that is not negative takes [n] characters off
    the padded buffer. *)
Lemma len_replace_chars_delete (s : string) (offset : Z) (n : nat) :
  (0 <= offset)%Z ->
  Js.len (replace_chars s "" offset n)
  = (Z.max (Js.len s) (offset + Z.of_nat n) - Z.of_nat n)%Z.
Proof.
  intros Hoff. unfold replace_chars.
  set (padded := if (offset + Z.of_nat n >? Js.len s)%Z then _ else s).
  assert (Hpad : Js.len padded = Z.max (Js.len s) (offset + Z.of_nat n)).
  { subst padded. destruct (Z.gtb_spec (offset + Z.of_nat n) (Js.len s)).
    - unfold Js.len. rewrite length_append, length_repeat. simpl String.length.
      unfold Js.len in *. lia.
    - lia. }
  unfold Js.len at 1. rewrite !length_append, length_repeat.
  pose proof (len_slice padded 0 offset ltac:(lia)) as H1.
  pose proof (len_slice padded (offset + Z.of_nat n) (Js.len padded) ltac:(lia)) as H2.
  unfold Js.len in *. simpl String.length. lia.
Qed.

(** * Further properties of the code *)

Lemma opt_string_eqb_eq (a b : option string) :
  opt_string_eqb a b = true <-> a = b.
Proof.
  destruct a as [x|], b as [y|]; simpl; try (split; congruence).
  rewrite String.eqb_eq. split; congruence.
Qed.

Lemma find_seq_first (f : nat -> bool) (n : nat) :
  forall a i,
    find f (seq a n) = Some i ->
    a <= i < a + n /\ f i = true /\ forall j, a <= j < i -> f j = false.
Proof.
  induction n as [|n IH]; intros a i H; simpl in H; [discriminate|].
  destruct (f a) eqn:Hfa.
  - injection H as <-. repeat split; try lia. exact Hfa.
  - destruct (IH (S a) i H) as [Hr [Hfi Hbefore]].
    repeat split; try lia; [exact Hfi|].
    intros j Hj. destruct (Nat.eq_dec j a) as [->|Hne]; [exact Hfa|].
    apply Hbefore. lia.
Qed.

Lemma find_seq_none (f : nat -> bool) (n : nat) :
  forall a, find f (seq a n) = None <-> forall j, a <= j < a + n -> f j = false.
Proof.
  induction n as [|n IH]; intros a; simpl.
  - split; [intros _ j Hj; lia | reflexivity].
  - destruct (f a) eqn:Hfa.
    + split; [discriminate|]. intros H. rewrite (H a) in Hfa by lia. discriminate.
    + rewrite IH. split.
      * intros H j Hj. destruct (Nat.eq_dec j a) as [->|Hne]; [exact Hfa|].
        apply H. lia.
      * intros H j Hj. apply H. lia.
Qed.

Lemma findNextChangeIndex_first (history : list HistoryItem) (startingIndex : nat) :
  startingIndex < List.length history ->
  (forall i, startingIndex <= i < findNextChangeIndex history startingIndex ->
             user_at history i = user_at history startingIndex)
  /\ (findNextChangeIndex history startingIndex < List.length history ->
      user_at history (findNextChangeIndex history startingIndex)
      <> user_at history startingIndex).
Proof.
  intros Hlt. unfold findNextChangeIndex, user_at.
  destruct (find _ _) as [next|] eqn:Hfind.
  - apply find_seq_first in Hfind. destruct Hfind as [Hr [Hdiff Hsame]].
    split.
    + intros i Hi. destruct (Nat.eq_dec i startingIndex) as [->|Hne]; [reflexivity|].
      specialize (Hsame i ltac:(lia)). apply negb_false_iff in Hsame.
      apply opt_string_eqb_eq. exact Hsame.
    + intros _ Heq. apply negb_true_iff in Hdiff.
      apply opt_string_eqb_eq in Heq. congruence.
  - rewrite find_seq_none in Hfind. rewrite length_map in Hfind. split.
    + intros i Hi. destruct (Nat.eq_dec i startingIndex) as [->|Hne]; [reflexivity|].
      specialize (Hfind i ltac:(lia)). apply negb_false_iff in Hfind.
      apply opt_string_eqb_eq. exact Hfind.
    + lia.
Qed.

Lemma findNextChangeIndex_uniform (history : list HistoryItem) (startingIndex : nat) :
  (forall i, startingIndex < i < List.length history ->
             user_at history i = user_at history startingIndex) ->
  findNextChangeIndex history startingIndex = List.length history.
Proof.
  intros Hsame. unfold findNextChangeIndex.
  destruct (find _ _) as [next|] eqn:Hfind; [|reflexivity].
  apply find_seq_first in Hfind. destruct Hfind as [Hr [Hdiff _]].
  rewrite length_map in Hr.
  apply negb_true_iff in Hdiff.
  assert (Heq : opt_string_eqb (nth_error (map user history) next)
                               (nth_error (map user history) startingIndex) = true).
  { apply opt_string_eqb_eq. apply Hsame. lia. }
  congruence.
Qed.

(** X1: from an index inside the history, [findNextChangeIndex] returns
    the end of the run of snapshots by one user that the index lies in:
    a later index, at most [history.length]; every snapshot from the index
    up to it has the user of the index; and unless it is [history.length],
    the snapshot at it has another user. *)
Theorem findNextChangeIndex_ends_run (history : list HistoryItem) (startingIndex : nat) :
  startingIndex < List.length history ->
  startingIndex < findNextChangeIndex history startingIndex <= List.length history
  /\ (forall i, startingIndex <= i < findNextChangeIndex history startingIndex ->
                user_at history i = user_at history startingIndex)
  /\ (findNextChangeIndex history startingIndex < List.length history ->
      user_at history (findNextChangeIndex history startingIndex)
      <> user_at history startingIndex).
Proof.
  intros Hlt. split; [apply findNextChangeIndex_bounds; exact Hlt|].
  apply findNextChangeIndex_first. exact Hlt.
Qed.

Lemma findNextChangeIndex_ends_run_witness :
  1 < findNextChangeIndex [snap bean "a"; snap bean "b"; snap bident "c"] 1 <= 3
  /\ (forall i, 1 <= i < findNextChangeIndex
                           [snap bean "a"; snap bean "b"; snap bident "c"] 1 ->
                user_at [snap bean "a"; snap bean "b"; snap bident "c"] i
                = user_at [snap bean "a"; snap bean "b"; snap bident "c"] 1)
  /\ (findNextChangeIndex [snap bean "a"; snap bean "b"; snap bident "c"] 1 < 3 ->
      user_at [snap bean "a"; snap bean "b"; snap bident "c"]
        (findNextChangeIndex [snap bean "a"; snap bean "b"; snap bident "c"] 1)
      <> user_at [snap bean "a"; snap bean "b"; snap bident "c"] 1).
Proof.
  apply (findNextChangeIndex_ends_run
           [snap bean "a"; snap bean "b"; snap bident "c"] 1).
  simpl. lia.
Defined.

(** X2: when no snapshot after [startingIndex] has another user than the
    one at [startingIndex], the result is [history.length]; so it is for
    the last index and for every index past the end. *)
Theorem findNextChangeIndex_no_change (history : list HistoryItem) (startingIndex : nat) :
  (forall i, startingIndex < i < List.length history ->
             user_at history i = user_at history startingIndex) ->
  findNextChangeIndex history startingIndex = List.length history.
Proof. apply findNextChangeIndex_uniform. Qed.

Lemma findNextChangeIndex_no_change_witness :
  findNextChangeIndex [snap bean "a"; snap bident "b"; snap bident "c"] 1 = 3.
Proof.
  apply (findNextChangeIndex_no_change
           [snap bean "a"; snap bident "b"; snap bident "c"] 1).
  intros i Hi. simpl in Hi. assert (i = 2) as -> by lia. reflexivity.
Defined.

Lemma scan_boundaries_change_points (fuel : nat) (history : list HistoryItem) :
  forall (current_index : nat) (change_indices : list nat),
    current_index <= List.length history ->
    List.length history - current_index <= fuel ->
    exists l,
      scan_boundaries fuel history current_index change_indices
        = Js.Done (change_indices ++ l)
      /\ climbs current_index l (List.length history)
      /\ forall c, In c l <->
                   current_index < c
                   /\ (c = List.length history \/ change_point history c).
Proof.
  induction fuel as [|fuel IH]; intros cur acc Hle Hfuel; simpl.
  - assert (cur = List.length history) as -> by lia.
    rewrite Nat.eqb_refl. exists []. rewrite app_nil_r.
    split; [reflexivity|]. split; [reflexivity|].
    intros c. split; [intros []|]. unfold change_point. intros [H1 [H2|H2]]; lia.
  - destruct (cur =? List.length history) eqn:Heq.
    + apply Nat.eqb_eq in Heq. exists []. rewrite app_nil_r.
      split; [reflexivity|]. split; [exact Heq|].
      intros c. split; [intros []|]. unfold change_point. intros [H1 [H2|H2]]; lia.
    + apply Nat.eqb_neq in Heq.
      assert (Hlt : cur < List.length history) by lia.
      pose proof (findNextChangeIndex_bounds history cur Hlt) as Hb.
      destruct (findNextChangeIndex_first history cur Hlt) as [Hsame Hdiff].
      set (next := findNextChangeIndex history cur) in *.
      destruct (IH next (acc ++ [next])) as [l [Hrun [Hcl Hin]]]; [lia | lia |].
      exists (next :: l). split; [|split].
      * rewrite Hrun, <- app_assoc. reflexivity.
      * simpl. repeat split; try lia. exact Hcl.
      * intros c. simpl. rewrite Hin. split.
        -- intros [<- | [Hc Hcp]].
           ++ split; [lia|].
              destruct (Nat.eq_dec next (List.length history)) as [Hn|Hn]; [left; exact Hn|].
              right. split; [lia|].
              rewrite (Hsame (next - 1)) by lia. apply Hdiff. lia.
           ++ split; [lia | exact Hcp].
        -- intros [Hc Hcp].
           destruct (Nat.eq_dec c next) as [->|Hne]; [left; reflexivity|].
           right. split; [|exact Hcp].
           destruct (Nat.lt_ge_cases next c) as [Hlt'|Hge]; [exact Hlt'|].
           exfalso. destruct Hcp as [Hcn | [Hrange Hcp]]; [lia|].
           apply Hcp. rewrite (Hsame c), (Hsame (c - 1)) by lia. reflexivity.
Qed.

(** X3: the index list is, in increasing order, every index at which
    the user differs from the user of the snapshot before, then
    [history.length] (for a history that is not empty), then
    [history.length] once more. *)
Theorem change_indices_are_change_points (history : list HistoryItem) :
  exists l,
    change_indices_of history = Js.Done (l ++ [List.length history])
    /\ strictly_increasing l = true
    /\ forall c, In c l <->
                 0 < c /\ (c = List.length history \/ change_point history c).
Proof.
  destruct (scan_boundaries_change_points (List.length history) history 0 [])
    as [l [Hrun [Hcl Hin]]]; [lia | lia |].
  exists l. split; [|split].
  - unfold change_indices_of. rewrite Hrun. reflexivity.
  - apply climbs_increasing in Hcl. apply strictly_increasing_tail in Hcl. exact Hcl.
  - exact Hin.
Qed.

Lemma index_pred {A : Type} (l : list A) (c : nat) :
  0 < c -> Js.index l (Z.of_nat c - 1) = nth_error l (c - 1).
Proof.
  intros Hc. unfold Js.index.
  destruct (Z.ltb_spec (Z.of_nat c - 1) 0); [lia|].
  replace (Z.to_nat (Z.of_nat c - 1)) with (c - 1) by lia. reflexivity.
Qed.

Lemma bind_done {A : Type} (m : Js.outcome A) :
  (x <- m ;; Js.Done x) = m.
Proof. destruct m; reflexivity. Qed.

Lemma fold_left_ext_in {A B : Type} (f g : A -> B -> A) (l : list B) :
  (forall a b, In b l -> f a b = g a b) ->
  forall a, fold_left f l a = fold_left g l a.
Proof.
  induction l as [|b l IH]; intros Hext a; [reflexivity|].
  simpl. rewrite (Hext a b) by (left; reflexivity).
  apply IH. intros a' b' Hin. apply Hext. right. exact Hin.
Qed.

(** The pair made of a boundary with itself changes nothing. *)
Lemma process_pair_same_boundary
    (diffChars : option string -> option string -> Js.outcome (list Change))
    (history : list HistoryItem) (change_indices : list nat) (segments : string)
    (i c : nat) :
  nth_error change_indices i = Some c ->
  nth_error change_indices (i + 1) = Some c ->
  0 < c <= List.length history ->
  process_pair diffChars history change_indices segments i = Js.Done segments.
Proof.
  intros Hi Hi1 Hc. unfold process_pair. rewrite Hi, Hi1.
  rewrite index_pred by lia.
  destruct (nth_error history (c - 1)) as [h|] eqn:Hh.
  - rewrite String.eqb_refl. reflexivity.
  - apply nth_error_None in Hh. lia.
Qed.

Lemma process_pair_prefix
    (diffChars : option string -> option string -> Js.outcome (list Change))
    (history : list HistoryItem) (change_indices rest : list nat) (segments : string)
    (i : nat) :
  i + 1 < List.length change_indices ->
  process_pair diffChars history (change_indices ++ rest) segments i
  = process_pair diffChars history change_indices segments i.
Proof.
  intros Hi. unfold process_pair.
  rewrite !nth_error_app1 by lia. reflexivity.
Qed.

(** The round of the repeated sentinel leaves the buffer as it is. *)
Lemma attribute_pairs_repeated_sentinel
    (diffChars : option string -> option string -> Js.outcome (list Change))
    (history : list HistoryItem) (interior : list nat) (n : nat) :
  0 < n <= List.length history ->
  attribute_pairs diffChars history (interior ++ [n; n])
  = attribute_pairs diffChars history (interior ++ [n]).
Proof.
  intros Hn. unfold attribute_pairs.
  rewrite !length_app. simpl List.length.
  replace (List.length interior + 2 - 1) with (S (List.length interior)) by lia.
  replace (List.length interior + 1 - 1) with (List.length interior) by lia.
  rewrite seq_S, fold_left_app. simpl fold_left.
  rewrite (fold_left_ext_in
             (fun acc i => segments <- acc ;;
                process_pair diffChars history (interior ++ [n; n]) segments i)
             (fun acc i => segments <- acc ;;
                process_pair diffChars history (interior ++ [n]) segments i)).
  - destruct (fold_left _ _ _) as [segments| |]; try reflexivity.
    simpl. apply (process_pair_same_boundary _ _ _ _ _ n).
    + rewrite nth_error_app2 by lia. rewrite Nat.sub_diag. reflexivity.
    + rewrite nth_error_app2 by lia.
      replace (List.length interior + 1 - List.length interior) with 1 by lia.
      reflexivity.
    + exact Hn.
  - intros acc i Hin. apply in_seq in Hin.
    destruct acc as [segments| |]; try reflexivity. simpl.
    change (interior ++ [n; n]) with (interior ++ [n] ++ [n]).
    rewrite app_assoc. apply process_pair_prefix.
    rewrite length_app. simpl. lia.
Qed.

Lemma scan_boundaries_stop (fuel : nat) (history : list HistoryItem) (acc : list nat) :
  scan_boundaries fuel history (List.length history) acc = Js.Done acc.
Proof. destruct fuel; simpl; rewrite Nat.eqb_refl; reflexivity. Qed.

Lemma scan_boundaries_step (fuel : nat) (history : list HistoryItem)
    (current_index : nat) (acc : list nat) :
  current_index <> List.length history ->
  scan_boundaries (S fuel) history current_index acc
  = scan_boundaries fuel history (findNextChangeIndex history current_index)
      (acc ++ [findNextChangeIndex history current_index]).
Proof.
  intros Hne. simpl. apply Nat.eqb_neq in Hne. rewrite Hne. reflexivity.
Qed.

(** X5: on a history that is not empty the index list ends with
    [history.length] twice, and the round of the second one changes
    nothing: the call returns what the pairs of the list without the
    repeated index give. *)
Theorem repeated_sentinel_is_harmless
    (diffChars : option string -> option string -> Js.outcome (list Change))
    (history : list HistoryItem) :
  history <> [] ->
  exists interior,
    change_indices_of history
      = Js.Done (interior ++ [List.length history; List.length history])
    /\ getSegmentFromHistory diffChars history
       = attribute_pairs diffChars history (interior ++ [List.length history]).
Proof.
  intros Hne.
  assert (Hpos : 0 < List.length history)
    by (destruct history; [congruence | simpl; lia]).
  destruct (scan_boundaries_climbs (List.length history) history 0 [])
    as [l [Hrun Hcl]]; [lia | lia |].
  destruct (climbs_last 0 l _ Hcl Hpos) as [interior ->].
  assert (Hci : change_indices_of history
                = Js.Done (interior ++ [List.length history; List.length history])).
  { unfold change_indices_of. rewrite Hrun. simpl.
    rewrite <- app_assoc. reflexivity. }
  exists interior. split; [exact Hci|].
  unfold getSegmentFromHistory. rewrite Hci. cbn [Js.bind].
  apply attribute_pairs_repeated_sentinel. lia.
Qed.

Lemma repeated_sentinel_is_harmless_witness :
  exists interior,
    change_indices_of [snap bean "ab"; snap bident "axb"]
      = Js.Done (interior ++ [2; 2])
    /\ getSegmentFromHistory DiffModel.diffChars [snap bean "ab"; snap bident "axb"]
       = attribute_pairs DiffModel.diffChars [snap bean "ab"; snap bident "axb"]
           (interior ++ [2]).
Proof.
  apply (repeated_sentinel_is_harmless DiffModel.diffChars
           [snap bean "ab"; snap bident "axb"]).
  discriminate.
Defined.

(** X6: a history whose snapshots all have one user gives the empty
    buffer, whatever the contents and whatever [diffChars] does: no pair
    is diffed. *)
Theorem single_author_empty_buffer
    (diffChars : option string -> option string -> Js.outcome (list Change))
    (history : list HistoryItem) :
  (forall x y, In x history -> In y history -> user x = user y) ->
  getSegmentFromHistory diffChars history = Js.Done "".
Proof.
  intros Hsame.
  destruct (Nat.eq_dec (List.length history) 0) as [Hzero|Hpos].
  { apply length_zero_iff_nil in Hzero. subst history. reflexivity. }
  assert (Hnext : findNextChangeIndex history 0 = List.length history).
  { apply findNextChangeIndex_uniform. intros i Hi. unfold user_at.
    rewrite !nth_error_map.
    destruct (nth_error history i) as [x|] eqn:Hx;
      [|apply nth_error_None in Hx; lia].
    destruct (nth_error history 0) as [y|] eqn:Hy;
      [|apply nth_error_None in Hy; lia].
    simpl. f_equal. apply Hsame; eapply nth_error_In; eassumption. }
  assert (Hci : change_indices_of history
                = Js.Done ([] ++ [List.length history; List.length history])).
  { unfold change_indices_of.
    assert (Hscan : forall fuel, 0 < fuel ->
               scan_boundaries fuel history 0 [] = Js.Done [List.length history]).
    { intros [|fuel] Hfuel; [lia|].
      rewrite scan_boundaries_step by lia.
      rewrite Hnext, scan_boundaries_stop. reflexivity. }
    rewrite Hscan by lia. reflexivity. }
  unfold getSegmentFromHistory. rewrite Hci. cbn [Js.bind].
  rewrite attribute_pairs_repeated_sentinel by lia. reflexivity.
Qed.

Lemma climbs_bounds (cur : nat) (l : list nat) (n : nat) :
  climbs cur l n -> Forall (fun x => cur < x <= n) l.
Proof.
  revert cur. induction l as [|x l IH]; intros cur Hcl; [constructor|].
  simpl in Hcl. destruct Hcl as [Hcx [Hxn Hcl]].
  constructor; [lia|].
  eapply Forall_impl; [|exact (IH x Hcl)]. simpl. intros y Hy. lia.
Qed.

(** X7: in every round of the pair loop both lookups are in range:
    neighbouring entries of the index list lie between 1 and
    [history.length], so [history[change_indices[i] - 1]] and
    [history[change_indices[i + 1] - 1]] are snapshots, and reading their
    [user] cannot fail on [undefined]. *)
Theorem boundary_lookups_in_range (history : list HistoryItem) :
  exists change_indices,
    change_indices_of history = Js.Done change_indices
    /\ forall i,
         i + 1 < List.length change_indices ->
         exists c c' prev_hist next_hist,
           nth_error change_indices i = Some c
           /\ nth_error change_indices (i + 1) = Some c'
           /\ 0 < c <= List.length history
           /\ 0 < c' <= List.length history
           /\ Js.index history (Z.of_nat c - 1) = Some prev_hist
           /\ Js.index history (Z.of_nat c' - 1) = Some next_hist.
Proof.
  destruct (scan_boundaries_climbs (List.length history) history 0 [])
    as [l [Hrun Hcl]]; [lia | lia |].
  exists (l ++ [List.length history]). split.
  - unfold change_indices_of. rewrite Hrun. reflexivity.
  - intros i Hi. rewrite length_app in Hi. simpl List.length in Hi.
    assert (Hpos : 0 < List.length history).
    { destruct l as [|x l]; [simpl in Hi; lia|]. simpl in Hcl. lia. }
    assert (Hrange : Forall (fun c => 0 < c <= List.length history)
                            (l ++ [List.length history])).
    { apply Forall_app. split.
      - apply climbs_bounds in Hcl. exact Hcl.
      - constructor; [lia | constructor]. }
    rewrite Forall_forall in Hrange.
    destruct (nth_error (l ++ [List.length history]) i) as [c|] eqn:Hc;
      [|apply nth_error_None in Hc; rewrite length_app in Hc; simpl in Hc; lia].
    destruct (nth_error (l ++ [List.length history]) (i + 1)) as [c'|] eqn:Hc';
      [|apply nth_error_None in Hc'; rewrite length_app in Hc'; simpl in Hc'; lia].
    pose proof (Hrange c (nth_error_In _ _ Hc)) as Hcr.
    pose proof (Hrange c' (nth_error_In _ _ Hc')) as Hcr'.
    destruct (nth_error history (c - 1)) as [p|] eqn:Hp;
      [|apply nth_error_None in Hp; lia].
    destruct (nth_error history (c' - 1)) as [q|] eqn:Hq;
      [|apply nth_error_None in Hq; lia].
    exists c, c', p, q. rewrite !index_pred by lia.
    repeat split; try assumption; lia.
Qed.

Lemma map_user_blank (history : list HistoryItem) :
  map user (map user_and_content history) = map user history.
Proof. rewrite map_map. reflexivity. Qed.

Lemma findNextChangeIndex_blank (history : list HistoryItem) (startingIndex : nat) :
  findNextChangeIndex (map user_and_content history) startingIndex
  = findNextChangeIndex history startingIndex.
Proof.
  unfold findNextChangeIndex. rewrite map_user_blank, !length_map. reflexivity.
Qed.

Lemma scan_boundaries_blank (fuel : nat) (history : list HistoryItem) :
  forall current_index change_indices,
    scan_boundaries fuel (map user_and_content history) current_index change_indices
    = scan_boundaries fuel history current_index change_indices.
Proof.
  induction fuel as [|fuel IH]; intros cur acc; simpl; rewrite length_map.
  - reflexivity.
  - rewrite findNextChangeIndex_blank, IH. reflexivity.
Qed.

Lemma process_pair_blank
    (diffChars : option string -> option string -> Js.outcome (list Change))
    (history : list HistoryItem) (change_indices : list nat) (segments : string)
    (i : nat) :
  process_pair diffChars (map user_and_content history) change_indices segments i
  = process_pair diffChars history change_indices segments i.
Proof.
  assert (Hindex : forall z, Js.index (map user_and_content history) z
                             = option_map user_and_content (Js.index history z)).
  { intros z. unfold Js.index. destruct (z <? 0)%Z; [reflexivity|].
    apply nth_error_map. }
  unfold process_pair.
  destruct (nth_error change_indices i) as [c|];
    destruct (nth_error change_indices (i + 1)) as [c'|];
    rewrite ?Hindex; try reflexivity.
  - destruct (Js.index history (Z.of_nat c - 1)) as [p|]; [|reflexivity].
    destruct (Js.index history (Z.of_nat c' - 1)) as [q|]; reflexivity.
  - destruct (Js.index history (Z.of_nat c - 1)) as [p|]; reflexivity.
Qed.

Lemma getSegmentFromHistory_blank
    (diffChars : option string -> option string -> Js.outcome (list Change))
    (history : list HistoryItem) :
  getSegmentFromHistory diffChars (map user_and_content history)
  = getSegmentFromHistory diffChars history.
Proof.
  unfold getSegmentFromHistory, change_indices_of.
  rewrite length_map, scan_boundaries_blank.
  destruct (scan_boundaries _ _ _ _) as [l| |]; try reflexivity.
  cbn [Js.bind]. unfold attribute_pairs.
  apply fold_left_ext_in. intros acc i _.
  destruct acc; try reflexivity. cbn [Js.bind]. apply process_pair_blank.
Qed.

Lemma same_users_contents_blank (h1 h2 : list HistoryItem) :
  map user h1 = map user h2 ->
  map content h1 = map content h2 ->
  map user_and_content h1 = map user_and_content h2.
Proof.
  revert h2. induction h1 as [|a h1 IH]; intros [|b h2] Hu Hc;
    try discriminate; [reflexivity|].
  simpl in *. injection Hu as Hu1 Hu2. injection Hc as Hc1 Hc2.
  unfold user_and_content at 1 3. rewrite Hu1, Hc1. f_equal. apply IH; assumption.
Qed.

Lemma rebuild_blank
    (diffChars : option string -> option string -> Js.outcome (list Change))
    (leaf : bool) (fileVersions : list HistoryItem) :
  rebuild diffChars leaf (map user_and_content fileVersions)
  = rebuild diffChars leaf fileVersions.
Proof.
  unfold rebuild, groups_of_history. rewrite length_map, <- map_rev.
  rewrite getSegmentFromHistory_blank. reflexivity.
Qed.

(** X8: the pipeline reads nothing of a snapshot but its user and its
    content: two version lists with the same users and the same contents
    give the same buffer and the same rebuild, whatever their [mtime] and
    [size]. *)
Theorem pipeline_reads_users_and_contents_only
    (diffChars : option string -> option string -> Js.outcome (list Change))
    (leaf : bool) (h1 h2 : list HistoryItem) :
  map user h1 = map user h2 ->
  map content h1 = map content h2 ->
  getSegmentFromHistory diffChars h1 = getSegmentFromHistory diffChars h2
  /\ rebuild diffChars leaf h1 = rebuild diffChars leaf h2.
Proof.
  intros Hu Hc.
  pose proof (same_users_contents_blank h1 h2 Hu Hc) as Hblank.
  split.
  - rewrite <- (getSegmentFromHistory_blank diffChars h1),
            <- (getSegmentFromHistory_blank diffChars h2), Hblank. reflexivity.
  - rewrite <- (rebuild_blank diffChars leaf h1),
            <- (rebuild_blank diffChars leaf h2), Hblank. reflexivity.
Qed.

Lemma get_beyond (s : string) :
  forall i, String.length s <= i -> String.get i s = None.
Proof.
  induction s as [|c s IH]; intros i Hi; [destruct i; reflexivity|].
  destruct i as [|i]; simpl in *; [lia|]. apply IH. lia.
Qed.

Lemma get_within (s : string) :
  forall i, i < String.length s -> exists c, String.get i s = Some c.
Proof.
  induction s as [|c s IH]; intros i Hi; simpl in Hi; [lia|].
  destruct i as [|i]; simpl; [eexists; reflexivity|]. apply IH. lia.
Qed.

Lemma get_ext (a : string) :
  forall b, (forall i, String.get i a = String.get i b) -> a = b.
Proof.
  induction a as [|c a IH]; intros [|d b] H.
  - reflexivity.
  - specialize (H 0). discriminate.
  - specialize (H 0). discriminate.
  - pose proof (H 0) as H0. simpl in H0. injection H0 as ->.
    f_equal. apply IH. intros i. exact (H (S i)).
Qed.

Lemma get_append (a b : string) :
  forall i, String.get i (a ++ b)
            = if i <? String.length a then String.get i a
              else String.get (i - String.length a) b.
Proof.
  induction a as [|c a IH]; intros i; simpl.
  - rewrite Nat.sub_0_r. reflexivity.
  - destruct i as [|i]; [reflexivity|]. simpl. rewrite IH.
    change (S i <? S (String.length a)) with (i <? String.length a). reflexivity.
Qed.

Lemma get_substring (s : string) (a m i : nat) :
  String.get i (substring a m s) = if i <? m then String.get (a + i) s else None.
Proof.
  destruct (Nat.ltb_spec i m) as [Hlt|Hge].
  - rewrite (substring_correct1 s a m i Hlt). f_equal. lia.
  - apply substring_correct2. exact Hge.
Qed.

Lemma get_repeat (c : ascii) (n : nat) :
  forall i, String.get i (Js.repeat (String c "") n) = if i <? n then Some c else None.
Proof.
  induction n as [|n IH]; intros i; simpl.
  - destruct i; reflexivity.
  - destruct i as [|i]; [reflexivity|]. rewrite IH. reflexivity.
Qed.

Lemma slice_substring (s : string) (a b : nat) :
  a <= b <= String.length s ->
  Js.slice s (Z.of_nat a) (Z.of_nat b) = substring a (b - a) s.
Proof.
  intros Hab. unfold Js.slice, Js.clamp, Js.len.
  destruct (Z.ltb_spec (Z.of_nat a) 0); [lia|].
  destruct (Z.ltb_spec (Z.of_nat b) 0); [lia|].
  f_equal; lia.
Qed.

(** The characters of the padded buffer. *)
Lemma get_padded (s : string) (m i : nat) :
  String.get i (s ++ Js.repeat "_" m)
  = if i <? String.length s then String.get i s
    else if i <? String.length s + m then Some "_"%char else None.
Proof.
  rewrite get_append. destruct (Nat.ltb_spec i (String.length s)); [reflexivity|].
  rewrite get_repeat.
  destruct (Nat.ltb_spec (i - String.length s) m), (Nat.ltb_spec i (String.length s + m));
    try reflexivity; lia.
Qed.

Ltac split_ltb :=
  repeat match goal with
         | |- context [?a <? ?b] => destruct (Nat.ltb_spec a b)
         | H : context [?a <? ?b] |- _ => destruct (Nat.ltb_spec a b)
         end.

(** The characters of the buffer after a label was written. *)
Lemma get_replace_chars (s : string) (c : ascii) (k n : nat) (i : nat) :
  String.get i (replace_chars s (String c "") (Z.of_nat k) n)
  = if i <? k then
      (if i <? String.length s then String.get i s else Some "_"%char)
    else if i <? k + n then Some c
    else String.get i s.
Proof.
  unfold replace_chars.
  set (padded := if (Z.of_nat k + Z.of_nat n >? Js.len s)%Z then _ else s).
  assert (Hlen : String.length padded = Nat.max (String.length s) (k + n)).
  { subst padded. unfold Js.len.
    destruct (Z.gtb_spec (Z.of_nat k + Z.of_nat n) (Z.of_nat (String.length s))).
    - rewrite length_append, length_repeat. simpl String.length. lia.
    - lia. }
  assert (Hget : forall j, String.get j padded
                           = if j <? String.length s then String.get j s
                             else if j <? k + n then Some "_"%char else None).
  { intros j. subst padded. unfold Js.len.
    destruct (Z.gtb_spec (Z.of_nat k + Z.of_nat n) (Z.of_nat (String.length s))).
    - rewrite get_padded.
      replace (Z.to_nat (Z.of_nat k + Z.of_nat n - Z.of_nat (String.length s)))
        with (k + n - String.length s) by lia.
      split_ltb; try reflexivity; lia.
    - split_ltb; try reflexivity; try lia. apply get_beyond. lia. }
  change 0%Z with (Z.of_nat 0).
  rewrite slice_substring by lia.
  replace (Z.of_nat k + Z.of_nat n)%Z with (Z.of_nat (k + n)) by lia.
  unfold Js.len. rewrite slice_substring by lia.
  rewrite !get_append, !length_substring, length_repeat, !get_substring, get_repeat.
  rewrite !Hget. simpl String.length.
  split_ltb; try reflexivity; try lia;
    try (f_equal; lia); try (symmetry; apply get_beyond; lia).
Qed.

(** The characters of the buffer after a deletion. *)
Lemma get_replace_chars_delete (s : string) (k n : nat) (i : nat) :
  String.get i (replace_chars s "" (Z.of_nat k) n)
  = if i <? k then
      (if i <? String.length s then String.get i s else Some "_"%char)
    else String.get (i + n) s.
Proof.
  unfold replace_chars.
  set (padded := if (Z.of_nat k + Z.of_nat n >? Js.len s)%Z then _ else s).
  assert (Hlen : String.length padded = Nat.max (String.length s) (k + n)).
  { subst padded. unfold Js.len.
    destruct (Z.gtb_spec (Z.of_nat k + Z.of_nat n) (Z.of_nat (String.length s))).
    - rewrite length_append, length_repeat. simpl String.length. lia.
    - lia. }
  assert (Hget : forall j, String.get j padded
                           = if j <? String.length s then String.get j s
                             else if j <? k + n then Some "_"%char else None).
  { intros j. subst padded. unfold Js.len.
    destruct (Z.gtb_spec (Z.of_nat k + Z.of_nat n) (Z.of_nat (String.length s))).
    - rewrite get_padded.
      replace (Z.to_nat (Z.of_nat k + Z.of_nat n - Z.of_nat (String.length s)))
        with (k + n - String.length s) by lia.
      split_ltb; try reflexivity; lia.
    - split_ltb; try reflexivity; try lia. apply get_beyond. lia. }
  change 0%Z with (Z.of_nat 0).
  rewrite slice_substring by lia.
  replace (Z.of_nat k + Z.of_nat n)%Z with (Z.of_nat (k + n)) by lia.
  unfold Js.len. rewrite slice_substring by lia.
  assert (Hnone : Js.repeat "" n = "") by (clear; induction n; simpl; [reflexivity | assumption]).
  rewrite Hnone.
  rewrite !get_append, !length_substring, !get_substring.
  rewrite !Hget. simpl String.length.
  split_ltb; try reflexivity; try lia;
    try (f_equal; lia); try (symmetry; apply get_beyond; lia).
Qed.

(** X10: writing [n] copies of a label at a start index [k] that is not
    negative gives a buffer of length max([s.length], [k + n]) that holds
    the label on [k, k + n), the old characters everywhere else below
    [s.length], and the padding ["_"] on the gap between [s.length] and
    [k]. *)
Theorem replace_chars_writes_range (s : string) (c : ascii) (k n : nat) :
  String.length (replace_chars s (String c "") (Z.of_nat k) n)
  = Nat.max (String.length s) (k + n)
  /\ forall i,
       String.get i (replace_chars s (String c "") (Z.of_nat k) n)
       = if i <? k then
           (if i <? String.length s then String.get i s else Some "_"%char)
         else if i <? k + n then Some c
         else String.get i s.
Proof.
  split.
  - pose proof (len_replace_chars s (String c "") (Z.of_nat k) n
                  ltac:(lia) eq_refl) as H.
    unfold Js.len in H. lia.
  - apply get_replace_chars.
Qed.

(** X11: deleting [n] characters at a start index [k] that is not
    negative gives a buffer of length max([s.length], [k + n]) - [n]: the
    characters below [k] stay (a [k] past the end is first reached with
    the padding ["_"], so such a deletion makes the buffer longer), and the
    characters from [k + n] on move down by [n]. *)
Theorem replace_chars_deletes_range (s : string) (k n : nat) :
  String.length (replace_chars s "" (Z.of_nat k) n)
  = Nat.max (String.length s) (k + n) - n
  /\ forall i,
       String.get i (replace_chars s "" (Z.of_nat k) n)
       = if i <? k then
           (if i <? String.length s then String.get i s else Some "_"%char)
         else String.get (i + n) s.
Proof.
  split.
  - pose proof (len_replace_chars_delete s (Z.of_nat k) n ltac:(lia)) as H.
    unfold Js.len in H. lia.
  - apply get_replace_chars_delete.
Qed.

Lemma append_assoc (a b c : string) : ((a ++ b) ++ c = a ++ (b ++ c))%string.
Proof. induction a as [|x a IH]; simpl; [reflexivity | rewrite IH; reflexivity]. Qed.

Lemma get_drop (s : string) (k i : nat) :
  String.get i (drop k s) = String.get (k + i) s.
Proof.
  unfold drop. rewrite get_substring.
  destruct (Nat.ltb_spec i (String.length s - k)); [reflexivity|].
  symmetry. apply get_beyond. lia.
Qed.

Lemma length_drop (s : string) (k : nat) :
  String.length (drop k s) = String.length s - k.
Proof. unfold drop. rewrite length_substring. lia. Qed.

Lemma drop_drop (s : string) (a b : nat) : drop b (drop a s) = drop (a + b) s.
Proof.
  apply get_ext. intros i. rewrite !get_drop. f_equal. lia.
Qed.

Lemma drop_0 (s : string) : drop 0 s = s.
Proof. apply get_ext. intros i. rewrite get_drop. reflexivity. Qed.

Lemma label_is_char (u : string) : exists c, getCharFromUser u = String c "".
Proof.
  destruct (label_cases u) as [-> | [-> | ->]]; eexists; reflexivity.
Qed.

(** A label written at the end of the written part: the written part
    stays, the label run follows, the old buffer loses its first [n]. *)
Lemma replace_chars_after_written (w r : string) (c : ascii) (n : nat) :
  replace_chars (w ++ r) (String c "") (Z.of_nat (String.length w)) n
  = (w ++ Js.repeat (String c "") n ++ drop n r)%string.
Proof.
  apply get_ext. intros i.
  rewrite get_replace_chars.
  rewrite !get_append, get_repeat, get_drop, length_repeat, length_append.
  simpl String.length.
  split_ltb; try reflexivity; try lia.
  f_equal. lia.
Qed.

Lemma replay_written_from (prev_hist next_hist : HistoryItem) (script : list Change) :
  forallb keeps_or_inserts script = true ->
  forall w r,
    fold_left (replay_change prev_hist next_hist) script
              ((w ++ r)%string, Z.of_nat (String.length w))
    = ((w ++ written prev_hist next_hist script ++ drop (total_count script) r)%string,
       Z.of_nat (String.length w + total_count script)).
Proof.
  induction script as [|c script IH]; intros Hall w r.
  - simpl. rewrite drop_0, Nat.add_0_r. reflexivity.
  - simpl in Hall. apply andb_true_iff in Hall. destruct Hall as [Hc Hall].
    cbn [fold_left].
    assert (Hstep : replay_change prev_hist next_hist
                      ((w ++ r)%string, Z.of_nat (String.length w)) c
                    = (((w ++ Js.repeat
                                (getCharFromUser
                                   (user (if added c then next_hist else prev_hist)))
                                (count c)) ++ drop (count c) r)%string,
                       Z.of_nat (String.length
                                   (w ++ Js.repeat
                                           (getCharFromUser
                                              (user (if added c then next_hist
                                                     else prev_hist)))
                                           (count c))))).
    { unfold replay_change, keeps_or_inserts in *.
      destruct (label_is_char (user (if added c then next_hist else prev_hist)))
        as [l Hl].
      rewrite Hl, length_append, length_repeat. simpl String.length.
      rewrite append_assoc, <- replace_chars_after_written.
      destruct (added c); [|destruct (removed c); [discriminate|]];
        rewrite Hl; f_equal; lia. }
    rewrite Hstep, (IH Hall).
    change (total_count (c :: script)) with (count c + total_count script).
    destruct (label_is_char (user (if added c then next_hist else prev_hist)))
      as [l Hl].
    f_equal.
    + cbn [written fold_right]. fold (written prev_hist next_hist script).
      rewrite drop_drop, !append_assoc. reflexivity.
    + rewrite length_append, length_repeat, Hl. simpl String.length. lia.
Qed.

Lemma length_written (prev_hist next_hist : HistoryItem) (script : list Change) :
  String.length (written prev_hist next_hist script) = total_count script.
Proof.
  induction script as [|c script IH]; [reflexivity|].
  cbn [written fold_right]. fold (written prev_hist next_hist script).
  rewrite length_append, length_repeat, label_length, IH.
  change (total_count (c :: script)) with (count c + total_count script). lia.
Qed.

(** X12: the replay of a script without deleted runs overwrites the
    buffer from index 0 with the labels of the runs, one per character:
    the outgoing author's for an equal run, the incoming author's for an
    inserted run.  What the buffer held beyond the characters run over
    stays, and the cursor ends at their number. *)
Theorem replay_writes_run_by_run (prev_hist next_hist : HistoryItem)
    (segments : string) (script : list Change) :
  forallb keeps_or_inserts script = true ->
  replay prev_hist next_hist segments script
  = ((written prev_hist next_hist script ++ drop (total_count script) segments)%string,
     Z.of_nat (total_count script))
  /\ String.length (written prev_hist next_hist script) = total_count script.
Proof.
  intros Hall. split.
  - unfold replay.
    exact (replay_written_from prev_hist next_hist script Hall "" segments).
  - apply length_written.
Qed.

Lemma replay_writes_run_by_run_witness :
  replay (snap bean "hello") (snap bident "hello world") "TTTTTTTTTTTTT"
         [equal "hello"; inserted " world"]
  = ("bbbbbTTTTTTTT", 11%Z)
  /\ String.length "bbbbbTTTTTT" = 11.
Proof.
  apply (replay_writes_run_by_run (snap bean "hello") (snap bident "hello world")
           "TTTTTTTTTTTTT" [equal "hello"; inserted " world"]).
  reflexivity.
Defined.

Lemma append_empty_r (s : string) : (s ++ "")%string = s.
Proof. induction s as [|c s IH]; simpl; [reflexivity | rewrite IH; reflexivity]. Qed.

Lemma drop_empty (k : nat) : drop k "" = "".
Proof. unfold drop. destruct k; reflexivity. Qed.

(** X13: for two snapshots by different users whose edit script has no
    deleted run, the buffer is the labels of the script run by run, and as
    long as the characters the script runs over. *)
Theorem two_snapshots_without_deletions
    (diffChars : option string -> option string -> Js.outcome (list Change))
    (h1 h2 : HistoryItem) (script : list Change) :
  user h1 <> user h2 ->
  diffChars (content h1) (content h2) = Js.Done script ->
  forallb keeps_or_inserts script = true ->
  getSegmentFromHistory diffChars [h1; h2] = Js.Done (written h1 h2 script)
  /\ String.length (written h1 h2 script) = total_count script.
Proof.
  intros Hne Hdiff Hall.
  pose proof (replay_written_from h1 h2 script Hall "" "") as Hreplay.
  split; [|apply length_written].
  rewrite <- getSegmentFromHistory_blank. cbn [map]. unfold user_and_content.
  unfold getSegmentFromHistory.
  rewrite (change_indices_two (user h1) (user h2) _ _ Hne).
  apply String.eqb_neq in Hne.
  unfold attribute_pairs, process_pair. simpl.
  rewrite Hne, String.eqb_refl. simpl. rewrite Hdiff. simpl.
  f_equal.
  change (replay (mkHistoryItem 0 (user h1) 0 (content h1))
                 (mkHistoryItem 0 (user h2) 0 (content h2)) "" script)
    with (replay h1 h2 "" script).
  unfold replay. cbn [String.length append] in Hreplay.
  change (Z.of_nat 0) with 0%Z in Hreplay. rewrite Hreplay.
  simpl fst. rewrite drop_empty, append_empty_r. reflexivity.
Qed.

Lemma two_snapshots_without_deletions_witness :
  getSegmentFromHistory DiffModel.diffChars [snap "alice" "ab"; snap bident "xaby"]
  = Js.Done "T__T"
  /\ String.length "T__T" = 4.
Proof.
  apply (two_snapshots_without_deletions DiffModel.diffChars
           (snap "alice" "ab") (snap bident "xaby")
           [inserted "x"; equal "ab"; inserted "y"]).
  - discriminate.
  - reflexivity.
  - reflexivity.
Defined.

Lemma all_labels_append (a b : string) :
  all_labels (a ++ b) = all_labels a && all_labels b.
Proof.
  induction a as [|c a IH]; simpl; [reflexivity|]. rewrite IH, andb_assoc. reflexivity.
Qed.

Lemma all_labels_substring (s : string) :
  forall a m, all_labels s = true -> all_labels (substring a m s) = true.
Proof.
  induction s as [|c s IH]; intros a m Hs.
  - destruct a, m; reflexivity.
  - simpl in Hs. apply andb_true_iff in Hs. destruct Hs as [Hc Hs].
    destruct a as [|a].
    + destruct m as [|m]; [reflexivity|]. simpl. rewrite Hc. apply IH. exact Hs.
    + simpl. apply IH. exact Hs.
Qed.

Lemma all_labels_repeat (c : string) (n : nat) :
  all_labels c = true -> all_labels (Js.repeat c n) = true.
Proof.
  intros Hc. induction n as [|n IH]; simpl; [reflexivity|].
  rewrite all_labels_append, Hc, IH. reflexivity.
Qed.

Lemma all_labels_slice (s : string) (a b : Z) :
  all_labels s = true -> all_labels (Js.slice s a b) = true.
Proof. intros Hs. unfold Js.slice. apply all_labels_substring. exact Hs. Qed.

Lemma all_labels_replace_chars (s char : string) (start_index : Z) (n : nat) :
  all_labels s = true -> all_labels char = true ->
  all_labels (replace_chars s char start_index n) = true.
Proof.
  intros Hs Hc. unfold replace_chars.
  set (padded := if (start_index + Z.of_nat n >? Js.len s)%Z then _ else s).
  assert (Hp : all_labels padded = true).
  { subst padded. destruct (_ >? _)%Z; [|exact Hs].
    rewrite all_labels_append, Hs. apply all_labels_repeat. reflexivity. }
  rewrite !all_labels_append, !all_labels_slice, all_labels_repeat by assumption.
  reflexivity.
Qed.

Lemma all_labels_label (u : string) : all_labels (getCharFromUser u) = true.
Proof. destruct (label_cases u) as [-> | [-> | ->]]; reflexivity. Qed.

Lemma all_labels_replay_change (prev_hist next_hist : HistoryItem)
    (st : string * Z) (c : Change) :
  all_labels (fst st) = true ->
  all_labels (fst (replay_change prev_hist next_hist st c)) = true.
Proof.
  destruct st as [segments offset]. simpl fst. intros Hs. unfold replay_change.
  destruct (added c); [|destruct (removed c)]; simpl fst;
    apply all_labels_replace_chars; try exact Hs;
    try apply all_labels_label; reflexivity.
Qed.

Lemma all_labels_replay (prev_hist next_hist : HistoryItem) (script : list Change) :
  forall st, all_labels (fst st) = true ->
             all_labels (fst (fold_left (replay_change prev_hist next_hist) script st))
             = true.
Proof.
  induction script as [|c script IH]; intros st Hs; [exact Hs|].
  cbn [fold_left]. apply IH. apply all_labels_replay_change. exact Hs.
Qed.

Lemma all_labels_process_pair
    (diffChars : option string -> option string -> Js.outcome (list Change))
    (history : list HistoryItem) (change_indices : list nat)
    (segments segments' : string) (i : nat) :
  all_labels segments = true ->
  process_pair diffChars history change_indices segments i = Js.Done segments' ->
  all_labels segments' = true.
Proof.
  intros Hs. unfold process_pair.
  destruct (match nth_error change_indices i with Some _ => _ | None => _ end)
    as [p|]; [|discriminate].
  destruct (match nth_error change_indices (i + 1) with Some _ => _ | None => _ end)
    as [q|]; [|discriminate].
  destruct (negb (user p =? user q)%string).
  - destruct (diffChars (content p) (content q)) as [script| |]; try discriminate.
    cbn [Js.bind]. intros H. injection H as <-.
    apply all_labels_replay. exact Hs.
  - intros H. injection H as <-. exact Hs.
Qed.

Lemma getSegmentFromHistory_all_labels
    (diffChars : option string -> option string -> Js.outcome (list Change))
    (history : list HistoryItem) (segments : string) :
  getSegmentFromHistory diffChars history = Js.Done segments ->
  all_labels segments = true.
Proof.
  unfold getSegmentFromHistory.
  destruct (change_indices_of history) as [change_indices| |]; try discriminate.
  cbn [Js.bind]. unfold attribute_pairs.
  generalize (seq 0 (List.length change_indices - 1)).
  assert (Hfold : forall indices acc,
             (forall s, acc = Js.Done s -> all_labels s = true) ->
             forall s,
               fold_left
                 (fun acc i => segments <- acc ;;
                    process_pair diffChars history change_indices segments i)
                 indices acc = Js.Done s ->
               all_labels s = true).
  { induction indices as [|i indices IH]; intros acc Hacc s Hrun.
    - apply Hacc. exact Hrun.
    - cbn [fold_left] in Hrun. revert Hrun. apply IH. intros s' Hs'.
      destruct acc as [s0| |]; try discriminate. cbn [Js.bind] in Hs'.
      eapply all_labels_process_pair; [|exact Hs']. apply Hacc. reflexivity. }
  intros indices. apply Hfold. intros s H. injection H as <-. reflexivity.
Qed.

Lemma tiles_le (groups : list Group) :
  forall k n, tiles k groups n -> k <= n.
Proof.
  induction groups as [|g groups IH]; intros k n Ht; simpl in Ht; [lia|].
  destruct Ht as [Hs [Hlt Ht]]. specialize (IH _ _ Ht). lia.
Qed.

(** X15: on every buffer [convert_segment_to_groups] returns; its
    groups are consecutive non-empty intervals from 0 up to the length of
    the buffer (up to 1 for the empty buffer), neighbours carry different
    labels, and there are no more groups than characters (one for the
    empty buffer). *)
Theorem groups_tile_every_buffer (segments : string) :
  exists groups,
    convert_segment_to_groups segments = Js.Done groups
    /\ tiles 0 groups (Nat.max 1 (String.length segments))
    /\ adjacent_distinct groups
    /\ List.length groups <= Nat.max 1 (String.length segments).
Proof.
  assert (Hcount : forall groups k n, tiles k groups n -> List.length groups <= n - k).
  { induction groups as [|g groups IH]; intros k n Ht; simpl in *; [lia|].
    destruct Ht as [Hs [Hlt Ht]]. pose proof (tiles_le _ _ _ Ht).
    specialize (IH _ _ Ht). lia. }
  destruct (Nat.eq_dec (String.length segments) 0) as [Hzero|Hpos].
  - destruct segments; [|discriminate].
    exists [mkGroup 0 1 None None].
    split; [reflexivity|]. split; [simpl; lia|]. split; [exact I | simpl; lia].
  - destruct (groups_partition_nonempty segments ltac:(lia))
      as [groups [Hrun [Htiles [Hadj _]]]].
    exists groups. replace (Nat.max 1 (String.length segments))
      with (String.length segments) by lia.
    repeat split; try assumption.
    specialize (Hcount _ _ _ Htiles). lia.
Qed.

Lemma expand_tiles (segments : string) (groups : list Group) :
  forall k n,
    tiles k groups n ->
    n <= String.length segments ->
    labelled segments groups ->
    expand groups = substring k (n - k) segments.
Proof.
  induction groups as [|g groups IH]; intros k n Ht Hn Hlab.
  - simpl in Ht. subst n. rewrite Nat.sub_diag.
    apply get_ext. intros i. rewrite get_substring. destruct i; reflexivity.
  - simpl in Ht. destruct Ht as [Hs [Hlt Ht]].
    pose proof (tiles_le _ _ _ Ht) as Hle.
    apply Forall_cons_iff in Hlab. destruct Hlab as [[_ Hchars] Hlab].
    cbn [expand fold_right]. fold (expand groups).
    rewrite (IH _ _ Ht Hn Hlab).
    destruct (get_within segments (start g) ltac:(lia)) as [c Hc].
    assert (Hg : char g = Some c) by (rewrite <- Hc; symmetry; apply Hchars; lia).
    rewrite Hg. apply get_ext. intros i.
    rewrite get_append, length_repeat, get_repeat, !get_substring.
    simpl String.length.
    split_ltb; try reflexivity; try lia.
    + rewrite <- Hg. symmetry. apply Hchars. lia.
    + f_equal. lia.
Qed.

(** X16: run-length round trip: writing every group out as its label
    repeated over its interval gives back the buffer, when the buffer is
    not empty. *)
Theorem groups_expand_to_buffer (segments : string) (groups : list Group) :
  0 < String.length segments ->
  convert_segment_to_groups segments = Js.Done groups ->
  expand groups = segments.
Proof.
  intros Hpos Hrun.
  destruct (groups_partition_nonempty segments Hpos)
    as [groups' [Hrun' [Htiles [_ Hlab]]]].
  rewrite Hrun in Hrun'. injection Hrun' as <-.
  rewrite (expand_tiles segments groups 0 (String.length segments) Htiles
             (Nat.le_refl _) Hlab).
  rewrite Nat.sub_0_r. apply get_ext. intros i. rewrite get_substring.
  destruct (Nat.ltb_spec i (String.length segments)); [reflexivity|].
  symmetry. apply get_beyond. lia.
Qed.

Lemma groups_expand_to_buffer_witness :
  expand [mkGroup 0 2 (Some "red") (Some "b"%char);
          mkGroup 2 3 (Some "blue") (Some "T"%char);
          mkGroup 3 5 (Some "red") (Some "b"%char)]
  = "bbTbb".
Proof.
  apply (groups_expand_to_buffer "bbTbb").
  - simpl. lia.
  - reflexivity.
Defined.

Lemma get_label (s : string) :
  forall i c, all_labels s = true -> String.get i s = Some c -> is_label c = true.
Proof.
  induction s as [|d s IH]; intros i c Hs Hget; [destruct i; discriminate|].
  simpl in Hs. apply andb_true_iff in Hs. destruct Hs as [Hd Hs].
  destruct i as [|i]; simpl in Hget.
  - injection Hget as <-. exact Hd.
  - exact (IH i c Hs Hget).
Qed.

(** X14: whatever the history and whatever scripts [diffChars] returns,
    the buffer holds nothing but the three label characters "b", "T" and
    "_". *)
Theorem buffer_holds_labels_only
    (diffChars : option string -> option string -> Js.outcome (list Change))
    (history : list HistoryItem) (segments : string) :
  getSegmentFromHistory diffChars history = Js.Done segments ->
  all_labels segments = true
  /\ forall i c, String.get i segments = Some c ->
                 c = "b"%char \/ c = "T"%char \/ c = "_"%char.
Proof.
  intros Hrun.
  pose proof (getSegmentFromHistory_all_labels _ _ _ Hrun) as Hall.
  split; [exact Hall|]. intros i c Hget.
  pose proof (get_label _ _ _ Hall Hget) as Hc. unfold is_label in Hc.
  destruct (Ascii.eqb_spec c "b"); [tauto|].
  destruct (Ascii.eqb_spec c "T"); [tauto|].
  destruct (Ascii.eqb_spec c "_"); [tauto | discriminate].
Qed.

Lemma buffer_holds_labels_only_witness :
  all_labels "Tb" = true
  /\ forall i c, String.get i "Tb" = Some c ->
                 c = "b"%char \/ c = "T"%char \/ c = "_"%char.
Proof.
  apply (buffer_holds_labels_only DiffModel.diffChars
           [snap bident ""; snap bean "abc"; snap bident "ax"] "Tb").
  reflexivity.
Defined.

Lemma color_of_label (c : ascii) :
  is_label c = true -> known_color (color_dict (Some c)) = true.
Proof.
  unfold is_label, color_dict. intros H.
  destruct (Ascii.eqb c "b"); [reflexivity|].
  destruct (Ascii.eqb c "T"); [reflexivity|].
  destruct (Ascii.eqb c "_"); [|discriminate].
  unfold known_color. rewrite String.eqb_refl. apply orb_true_r.
Qed.

(** X17: whenever the rebuild returns, it adds one range per group, in
    order, and the groups are none (no leaf, or fewer than two versions),
    or the one group [0, 1) with undefined label and colour (empty buffer),
    or consecutive non-empty intervals from 0 whose neighbours differ in
    label and whose colours are all among "red", "blue" and the hash
    colour of "underscore". *)
Theorem rebuild_groups_tile_with_known_colors
    (diffChars : option string -> option string -> Js.outcome (list Change))
    (leaf : bool) (fileVersions : list HistoryItem)
    (groups : list Group) (decorations : list DecorationRange) :
  rebuild diffChars leaf fileVersions = Js.Done (groups, decorations) ->
  decorations = map decoration_of groups
  /\ (groups = []
      \/ groups = [mkGroup 0 1 None None]
      \/ exists n, 0 < n
                   /\ tiles 0 groups n
                   /\ adjacent_distinct groups
                   /\ Forall (fun g => known_color (color g) = true) groups).
Proof.
  unfold rebuild.
  destruct (negb leaf); [intros H; injection H as <- <-; split; [reflexivity | left; reflexivity]|].
  destruct (List.length fileVersions =? 0);
    [intros H; injection H as <- <-; split; [reflexivity | left; reflexivity]|].
  destruct (1 <? List.length fileVersions);
    [|intros H; injection H as <- <-; split; [reflexivity | left; reflexivity]].
  unfold groups_of_history.
  destruct (getSegmentFromHistory diffChars (rev fileVersions))
    as [segments| |] eqn:Hseg; try discriminate.
  cbn [Js.bind].
  destruct (convert_segment_to_groups segments) as [gs| |] eqn:Hconv; try discriminate.
  cbn [Js.bind]. intros H. injection H as <- <-.
  split; [reflexivity|]. right.
  destruct (Nat.eq_dec (String.length segments) 0) as [Hzero|Hpos].
  - left. destruct segments; [|discriminate]. vm_compute in Hconv. congruence.
  - right. exists (String.length segments).
    destruct (groups_partition_nonempty segments ltac:(lia))
      as [groups' [Hrun' [Htiles [Hadj Hlab]]]].
    rewrite Hconv in Hrun'. injection Hrun' as <-.
    repeat split; try assumption; try lia.
    pose proof (getSegmentFromHistory_all_labels _ _ _ Hseg) as Hall.
    assert (Hin : forall k n gs', tiles k gs' n -> n <= String.length segments ->
               labelled segments gs' ->
               Forall (fun g => known_color (color g) = true) gs').
    { clear - Hall. intros k n gs'. revert k.
      induction gs' as [|g gs' IH]; intros k Ht Hn Hlab; [constructor|].
      simpl in Ht. destruct Ht as [Hs [Hlt Ht]].
      pose proof (tiles_le _ _ _ Ht) as Hle.
      apply Forall_cons_iff in Hlab. destruct Hlab as [[Hcol Hchars] Hlab].
      constructor; [|exact (IH _ Ht Hn Hlab)].
      destruct (get_within segments (start g) ltac:(lia)) as [c Hc].
      rewrite Hcol, <- (Hchars (start g)) by lia. rewrite Hc.
      apply color_of_label. exact (get_label _ _ _ Hall Hc). }
    exact (Hin 0 _ _ Htiles (Nat.le_refl _) Hlab).
Qed.

Lemma to_int32_small (w : Z) : (0 <= w < 2 ^ 31)%Z -> Js.to_int32 w = w.
Proof.
  intros Hw. unfold Js.to_int32.
  rewrite Z.mod_small by lia.
  destruct (Z.leb_spec (2 ^ 31) w); [lia | reflexivity].
Qed.

Lemma color_bits_range (hash : Z) :
  (0 <= Js.shl (Js.band hash 16777215) 0 < 16 ^ 6)%Z.
Proof.
  assert (Hland : (0 <= Z.land (Js.to_int32 hash) 16777215 < 16 ^ 6)%Z).
  { change 16777215%Z with (Z.ones 24). rewrite Z.land_ones by lia.
    change (16 ^ 6)%Z with (2 ^ 24)%Z. apply Z.mod_pos_bound. lia. }
  unfold Js.shl, Js.band.
  change (Js.to_int32 16777215) with 16777215%Z.
  change (16 ^ 6)%Z with 16777216%Z in *.
  rewrite (to_int32_small (Z.land _ _)) by lia.
  rewrite Z.shiftl_0_r.
  rewrite !(to_int32_small (Z.land _ _)) by lia.
  exact Hland.
Qed.

Lemma hex_digit_spec (d : Z) :
  (0 <= d < 16)%Z -> exists c, Js.hex_digit d = String c "" /\ is_hex c = true.
Proof.
  intros Hd.
  assert (H : (d = 0 \/ d = 1 \/ d = 2 \/ d = 3 \/ d = 4 \/ d = 5 \/ d = 6 \/ d = 7
               \/ d = 8 \/ d = 9 \/ d = 10 \/ d = 11 \/ d = 12 \/ d = 13 \/ d = 14
               \/ d = 15)%Z) by lia.
  repeat (destruct H as [-> | H]; [eexists; split; reflexivity|]).
  subst d. eexists; split; reflexivity.
Qed.

Lemma all_hex_append (a b : string) : all_hex (a ++ b) = all_hex a && all_hex b.
Proof.
  induction a as [|c a IH]; simpl; [reflexivity|]. rewrite IH, andb_assoc. reflexivity.
Qed.

Lemma to_hex_spec (fuel : nat) :
  forall (k : nat) (n : Z),
    1 <= k <= fuel ->
    (0 <= n < 16 ^ Z.of_nat k)%Z ->
    1 <= String.length (Js.to_hex fuel n) <= k /\ all_hex (Js.to_hex fuel n) = true.
Proof.
  induction fuel as [|fuel IH]; intros k n Hk Hn; [lia|].
  simpl. destruct (Z.ltb_spec n 16) as [Hsmall|Hbig].
  - destruct (hex_digit_spec n ltac:(lia)) as [c [-> Hc]]. simpl.
    rewrite Hc. split; [lia | reflexivity].
  - assert (Hk2 : 2 <= k).
    { destruct (Nat.eq_dec k 1) as [->|]; [|lia]. simpl in Hn. lia. }
    assert (Hpow : (16 ^ Z.of_nat k = 16 * 16 ^ Z.of_nat (k - 1))%Z).
    { replace (Z.of_nat k) with (Z.succ (Z.of_nat (k - 1))) by lia.
      rewrite Z.pow_succ_r by lia. reflexivity. }
    destruct (IH (k - 1) (n / 16)%Z ltac:(lia)) as [Hlen Hhex].
    { split; [apply Z.div_pos; lia|]. apply Z.div_lt_upper_bound; lia. }
    destruct (hex_digit_spec (n mod 16)%Z ltac:(apply Z.mod_pos_bound; lia))
      as [c [-> Hc]].
    rewrite length_append, all_hex_append, Hhex. simpl. rewrite Hc.
    split; [lia | reflexivity].
Qed.

Lemma getUserColor_hex (user : string) :
  exists digits,
    getUserColor user = String "#" digits
    /\ String.length digits = 6
    /\ all_hex digits = true.
Proof.
  unfold getUserColor.
  set (hash := fold_left _ _ _).
  pose proof (color_bits_range hash) as Hrange.
  destruct (to_hex_spec 8 6 _ ltac:(lia) Hrange) as [Hlen Hhex].
  set (hex := Js.to_hex 8 _) in *.
  exists (Js.padStart hex 6 "0"). split; [reflexivity|].
  unfold Js.padStart. rewrite length_append, length_repeat, all_hex_append, Hhex.
  simpl String.length. split; [lia|].
  rewrite andb_true_r. clear. induction (6 - String.length hex); [reflexivity|].
  simpl. exact IHn.
Qed.

Lemma getUserColor_not_empty (user : string) : (getUserColor user =? "")%string = false.
Proof.
  destruct (getUserColor_hex user) as [digits [-> _]]. reflexivity.
Qed.

(** X18: for every user the colour is "#" followed by exactly six
    lower-case hexadecimal digits (seven characters), whatever the hash
    grows to. *)
Theorem getUserColor_is_hex_color (user : string) :
  String.length (getUserColor user) = 7
  /\ exists digits,
       getUserColor user = String "#" digits
       /\ String.length digits = 6
       /\ all_hex digits = true.
Proof.
  destruct (getUserColor_hex user) as [digits [Heq [Hlen Hhex]]].
  split.
  - rewrite Heq. simpl. rewrite Hlen. reflexivity.
  - exists digits. repeat split; assumption.
Qed.

(** X19: the table [userColors] is transparent.  For a user that is no
    name the prototype defines, and a table that holds only colours
    [getUserColor] computed, the call returns the hash colour of the user,
    the table then stores it under the user and still holds only such
    colours, and a second call returns the same and leaves the table
    alone. *)
Theorem getUserColor_memo_transparent (inherited : string -> bool)
    (userColors : list (string * string)) (user : string) :
  inherited user = false ->
  table_sound userColors ->
  let '(result, userColors') := getUserColor_memo inherited userColors user in
  result = Some (Stored (getUserColor user))
  /\ own userColors' user = Some (getUserColor user)
  /\ table_sound userColors'
  /\ getUserColor_memo inherited userColors' user = (result, userColors').
Proof.
  intros Hinh Hsound.
  assert (Hstored : forall table,
             own table user = Some (getUserColor user) ->
             getUserColor_memo inherited table user
             = (Some (Stored (getUserColor user)), table)).
  { intros table Hown. unfold getUserColor_memo, read. rewrite Hown.
    cbn [truthy]. rewrite getUserColor_not_empty. reflexivity. }
  destruct (own userColors user) as [c|] eqn:Hown.
  - pose proof (Hsound user c Hown) as ->.
    rewrite (Hstored userColors Hown).
    repeat split; try assumption. apply Hstored. exact Hown.
  - unfold getUserColor_memo at 1. unfold read at 1. rewrite Hown, Hinh.
    cbn [truthy negb]. unfold read. cbn [own]. rewrite String.eqb_refl.
    assert (Hown' : own ((user, getUserColor user) :: userColors) user
                    = Some (getUserColor user))
      by (simpl; rewrite String.eqb_refl; reflexivity).
    repeat split; try assumption.
    + intros u c. simpl. destruct (String.eqb_spec user u) as [->|Hne].
      * intros H. injection H as <-. reflexivity.
      * apply Hsound.
    + apply Hstored. exact Hown'.
Qed.

Lemma scan_boundaries_follows (fuel : nat) (history : list HistoryItem) :
  forall (current_index : nat) (change_indices : list nat),
    current_index <= List.length history ->
    List.length history - current_index <= fuel ->
    exists l,
      scan_boundaries fuel history current_index change_indices
        = Js.Done (change_indices ++ l)
      /\ climbs current_index l (List.length history)
      /\ follows history current_index l.
Proof.
  induction fuel as [|fuel IH]; intros cur acc Hle Hfuel; simpl.
  - assert (cur = List.length history) as -> by lia.
    rewrite Nat.eqb_refl. exists []. rewrite app_nil_r. repeat split.
  - destruct (cur =? List.length history) eqn:Heq.
    + apply Nat.eqb_eq in Heq. exists []. rewrite app_nil_r. repeat split. exact Heq.
    + apply Nat.eqb_neq in Heq.
      assert (Hlt : cur < List.length history) by lia.
      pose proof (findNextChangeIndex_bounds history cur Hlt) as Hb.
      destruct (IH (findNextChangeIndex history cur)
                   (acc ++ [findNextChangeIndex history cur]))
        as [l [Hrun [Hcl Hfol]]]; [lia | lia |].
      exists (findNextChangeIndex history cur :: l). split; [|split].
      * rewrite Hrun, <- app_assoc. reflexivity.
      * simpl. repeat split; try lia. exact Hcl.
      * simpl. split; [reflexivity | exact Hfol].
Qed.

Lemma follows_pairs (history : list HistoryItem) (l : list nat) :
  forall cur,
    cur < List.length history ->
    climbs cur l (List.length history) ->
    follows history cur l ->
    forall i c c',
      nth_error l i = Some c ->
      nth_error l (i + 1) = Some c' ->
      user_at history (c - 1) <> user_at history (c' - 1).
Proof.
  induction l as [|x l IH]; intros cur Hcur Hcl Hfol i c c' Hc Hc';
    [destruct i; discriminate|].
  simpl in Hcl, Hfol. destruct Hcl as [Hcx [Hxn Hcl]]. destruct Hfol as [Hx Hfol].
  destruct l as [|y l]; [destruct i as [|[|i]]; discriminate|].
  assert (Hxlt : x < List.length history).
  { simpl in Hcl. lia. }
  destruct i as [|i].
  - simpl in Hc, Hc'. injection Hc as <-. injection Hc' as <-.
    simpl in Hfol. destruct Hfol as [Hy _]. simpl in Hcl. destruct Hcl as [Hxy _].
    destruct (findNextChangeIndex_first history cur Hcur) as [Hsame Hdiff].
    destruct (findNextChangeIndex_first history x Hxlt) as [Hsame' _].
    rewrite <- Hx in *. rewrite <- Hy in *.
    rewrite (Hsame (x - 1)) by lia. rewrite (Hsame' (y - 1)) by lia.
    intros Heq. apply (Hdiff Hxlt). symmetry. exact Heq.
  - exact (IH x Hxlt Hcl Hfol i c c' Hc Hc').
Qed.

(** X4: any two neighbours of the index list before the repeated
    sentinel stand for snapshots by different users: the pair that the
    comparison of the users skips is the repeated sentinel's alone. *)
Theorem boundary_pairs_join_different_authors (history : list HistoryItem) :
  exists l,
    change_indices_of history = Js.Done (l ++ [List.length history])
    /\ forall i c c',
         nth_error l i = Some c ->
         nth_error l (i + 1) = Some c' ->
         user_at history (c - 1) <> user_at history (c' - 1).
Proof.
  destruct (scan_boundaries_follows (List.length history) history 0 [])
    as [l [Hrun [Hcl Hfol]]]; [lia | lia |].
  exists l. split.
  - unfold change_indices_of. rewrite Hrun. reflexivity.
  - destruct (Nat.eq_dec (List.length history) 0) as [Hzero|Hpos].
    + destruct l as [|x l]; [intros [|i]; discriminate|].
      simpl in Hcl. lia.
    + apply (follows_pairs history l 0); [lia | exact Hcl | exact Hfol].
Qed.

Lemma findNextChangeIndex_users (h1 h2 : list HistoryItem) (startingIndex : nat) :
  map user h1 = map user h2 ->
  findNextChangeIndex h1 startingIndex = findNextChangeIndex h2 startingIndex.
Proof.
  intros Hu. unfold findNextChangeIndex. rewrite Hu.
  rewrite <- (length_map user h1), <- (length_map user h2), Hu. reflexivity.
Qed.

Lemma scan_boundaries_users (fuel : nat) (h1 h2 : list HistoryItem) :
  map user h1 = map user h2 ->
  forall current_index change_indices,
    scan_boundaries fuel h1 current_index change_indices
    = scan_boundaries fuel h2 current_index change_indices.
Proof.
  intros Hu.
  assert (Hlen : List.length h1 = List.length h2)
    by (rewrite <- (length_map user h1), <- (length_map user h2), Hu; reflexivity).
  induction fuel as [|fuel IH]; intros cur acc; simpl; rewrite Hlen.
  - reflexivity.
  - rewrite (findNextChangeIndex_users h1 h2 cur Hu), IH. reflexivity.
Qed.

(** X9: of every run of snapshots by one user only the last is read:
    two histories with the same users whose contents agree on the last
    snapshot of every run give the same buffer. *)
Theorem only_run_ends_are_read
    (diffChars : option string -> option string -> Js.outcome (list Change))
    (h1 h2 : list HistoryItem) :
  map user h1 = map user h2 ->
  (forall j, run_end h1 j ->
             nth_error (map content h1) j = nth_error (map content h2) j) ->
  getSegmentFromHistory diffChars h1 = getSegmentFromHistory diffChars h2.
Proof.
  intros Hu Hcontent.
  assert (Hlen : List.length h1 = List.length h2)
    by (rewrite <- (length_map user h1), <- (length_map user h2), Hu; reflexivity).
  destruct (scan_boundaries_change_points (List.length h1) h1 0 [])
    as [l [Hrun [Hcl Hin]]]; [lia | lia |].
  unfold getSegmentFromHistory, change_indices_of.
  rewrite <- Hlen, <- (scan_boundaries_users _ h1 h2 Hu), Hrun.
  cbn [Js.bind app]. unfold attribute_pairs.
  apply fold_left_ext_in. intros acc i Hi. apply in_seq in Hi.
  destruct acc as [segments| |]; try reflexivity. cbn [Js.bind].
  assert (Hlookup : forall k c,
             nth_error (l ++ [List.length h1]) k = Some c ->
             k < List.length l + 1 ->
             exists p q,
               Js.index h1 (Z.of_nat c - 1) = Some p
               /\ Js.index h2 (Z.of_nat c - 1) = Some q
               /\ user p = user q /\ content p = content q).
  { intros k c Hk Hklt.
    apply nth_error_In in Hk. apply in_app_or in Hk.
    assert (Hc : 0 < c <= List.length h1 /\ run_end h1 (c - 1)).
    { destruct Hk as [Hk | [<- | []]].
      - apply Hin in Hk. destruct Hk as [Hpos [-> | Hcp]].
        + split; [lia|]. left. lia.
        + split; [unfold change_point in Hcp; lia|]. right.
          replace (c - 1 + 1) with c by lia. exact Hcp.
      - destruct (Nat.eq_dec (List.length h1) 0) as [Hzero|Hpos].
        + exfalso. destruct l as [|x l']; [simpl in Hi; lia|].
          simpl in Hcl. lia.
        + split; [lia|]. left. lia. }
    destruct Hc as [Hrange Hend].
    rewrite !index_pred by lia.
    destruct (nth_error h1 (c - 1)) as [p|] eqn:Hp;
      [|apply nth_error_None in Hp; lia].
    destruct (nth_error h2 (c - 1)) as [q|] eqn:Hq;
      [|apply nth_error_None in Hq; lia].
    exists p, q. repeat split.
    - assert (H : nth_error (map user h1) (c - 1) = nth_error (map user h2) (c - 1))
        by (rewrite Hu; reflexivity).
      rewrite !nth_error_map, Hp, Hq in H. simpl in H. congruence.
    - specialize (Hcontent (c - 1) Hend).
      rewrite !nth_error_map, Hp, Hq in Hcontent. simpl in Hcontent. congruence. }
  unfold process_pair.
  rewrite length_app in Hi. simpl List.length in Hi.
  destruct (nth_error (l ++ [List.length h1]) i) as [c|] eqn:Hc;
    [|apply nth_error_None in Hc; rewrite length_app in Hc; simpl in Hc; lia].
  destruct (nth_error (l ++ [List.length h1]) (i + 1)) as [c'|] eqn:Hc';
    [|apply nth_error_None in Hc'; rewrite length_app in Hc'; simpl in Hc'; lia].
  destruct (Hlookup i c Hc ltac:(lia)) as [p [q [-> [-> [Hpu Hpc]]]]].
  destruct (Hlookup (i + 1) c' Hc' ltac:(lia)) as [p' [q' [-> [-> [Hpu' Hpc']]]]].
  rewrite Hpu, Hpu', Hpc, Hpc'.
  destruct (negb (user q =? user q')%string); [|reflexivity].
  destruct (diffChars (content q) (content q')) as [script| |]; try reflexivity.
  cbn [Js.bind]. f_equal. f_equal. unfold replay. f_equal.
  unfold replay_change. rewrite Hpu, Hpu'. reflexivity.
Qed.

Lemma single_author_empty_buffer_witness :
  getSegmentFromHistory DiffModel.diffChars
    [snap bean "a"; mkHistoryItem 7 bean 2 None; snap bean "abc"]
  = Js.Done "".
Proof.
  apply (single_author_empty_buffer DiffModel.diffChars
           [snap bean "a"; mkHistoryItem 7 bean 2 None; snap bean "abc"]).
  intros x y Hx Hy. simpl in Hx, Hy.
  destruct Hx as [<- | [<- | [<- | []]]]; destruct Hy as [<- | [<- | [<- | []]]];
    reflexivity.
Defined.

Lemma pipeline_reads_users_and_contents_only_witness :
  getSegmentFromHistory DiffModel.diffChars versions_oldest_first
  = getSegmentFromHistory DiffModel.diffChars versions_tied
  /\ rebuild DiffModel.diffChars true versions_oldest_first
     = rebuild DiffModel.diffChars true versions_tied.
Proof.
  apply (pipeline_reads_users_and_contents_only DiffModel.diffChars true
           versions_oldest_first versions_tied); reflexivity.
Defined.

Lemma rebuild_groups_tile_with_known_colors_witness :
  map decoration_of
      [mkGroup 0 5 (Some "red") (Some "b"%char);
       mkGroup 5 11 (Some "blue") (Some "T"%char)]
  = map decoration_of
      [mkGroup 0 5 (Some "red") (Some "b"%char);
       mkGroup 5 11 (Some "blue") (Some "T"%char)]
  /\ ([mkGroup 0 5 (Some "red") (Some "b"%char);
       mkGroup 5 11 (Some "blue") (Some "T"%char)] = []
      \/ [mkGroup 0 5 (Some "red") (Some "b"%char);
          mkGroup 5 11 (Some "blue") (Some "T"%char)] = [mkGroup 0 1 None None]
      \/ exists n, 0 < n
                   /\ tiles 0 [mkGroup 0 5 (Some "red") (Some "b"%char);
                               mkGroup 5 11 (Some "blue") (Some "T"%char)] n
                   /\ adjacent_distinct
                        [mkGroup 0 5 (Some "red") (Some "b"%char);
                         mkGroup 5 11 (Some "blue") (Some "T"%char)]
                   /\ Forall (fun g => known_color (color g) = true)
                             [mkGroup 0 5 (Some "red") (Some "b"%char);
                              mkGroup 5 11 (Some "blue") (Some "T"%char)]).
Proof.
  apply (rebuild_groups_tile_with_known_colors DiffModel.diffChars true
           [snap bident "hello world"; snap bean "hello"]).
  reflexivity.
Defined.

Lemma getUserColor_memo_transparent_witness :
  let '(result, userColors') :=
    getUserColor_memo (fun u => (u =? "constructor")%string) [] "underscore" in
  result = Some (Stored (getUserColor "underscore"))
  /\ own userColors' "underscore" = Some (getUserColor "underscore")
  /\ table_sound userColors'
  /\ getUserColor_memo (fun u => (u =? "constructor")%string) userColors' "underscore"
     = (result, userColors').
Proof.
  apply (getUserColor_memo_transparent (fun u => (u =? "constructor")%string)
           [] "underscore").
  - reflexivity.
  - intros u c H. discriminate.
Defined.

Lemma only_run_ends_are_read_witness :
  getSegmentFromHistory DiffModel.diffChars
    [snap bean "draft"; snap bean "hello"; snap bident "hello world"]
  = getSegmentFromHistory DiffModel.diffChars
      [mkHistoryItem 0 bean 0 None; snap bean "hello"; snap bident "hello world"].
Proof.
  apply (only_run_ends_are_read DiffModel.diffChars
           [snap bean "draft"; snap bean "hello"; snap bident "hello world"]
           [mkHistoryItem 0 bean 0 None; snap bean "hello"; snap bident "hello world"]).
  - reflexivity.
  - intros j [Hlast | [Hrange Hchange]].
    + simpl in Hlast. assert (j = 2) as -> by lia. reflexivity.
    + simpl in Hrange. destruct j as [|[|j]]; [|reflexivity|lia].
      exfalso. apply Hchange. reflexivity.
Defined.

(** ** Snapshots without a content *)

Lemma getFileVersions_contents {Buffer : Type} (decode : option Buffer -> string)
    (sync : option (SyncInstance Buffer)) (file : option string) :
  Forall (fun h => content h <> None) (getFileVersions decode sync file).
Proof.
  unfold getFileVersions.
  destruct sync as [instance|]; [|constructor].
  destruct file as [path|]; [|constructor].
  destruct (getHistory instance path) as [items|]; [|constructor].
  apply Forall_forall. intros h Hin. apply in_map_iff in Hin.
  destruct Hin as [item [<- _]]. discriminate.
Qed.

Lemma index_in {A : Type} (l : list A) (z : Z) (a : A) :
  Js.index l z = Some a -> In a l.
Proof.
  unfold Js.index. destruct (z <? 0)%Z; [discriminate|]. apply nth_error_In.
Qed.

Lemma process_pair_on_texts
    (d1 d2 : option string -> option string -> Js.outcome (list Change))
    (history : list HistoryItem) (change_indices : list nat) (segments : string)
    (i : nat) :
  Forall (fun h => content h <> None) history ->
  (forall a b, d1 (Some a) (Some b) = d2 (Some a) (Some b)) ->
  process_pair d1 history change_indices segments i
  = process_pair d2 history change_indices segments i.
Proof.
  intros Hcontent Hagree. rewrite Forall_forall in Hcontent. unfold process_pair.
  destruct (match nth_error change_indices i with Some _ => _ | None => _ end)
    as [p|] eqn:Hp; [|reflexivity].
  destruct (match nth_error change_indices (i + 1) with Some _ => _ | None => _ end)
    as [q|] eqn:Hq; [|reflexivity].
  destruct (negb (user p =? user q)%string); [|reflexivity].
  assert (Hpin : In p history).
  { destruct (nth_error change_indices i); [|discriminate]. exact (index_in _ _ _ Hp). }
  assert (Hqin : In q history).
  { destruct (nth_error change_indices (i + 1)); [|discriminate].
    exact (index_in _ _ _ Hq). }
  pose proof (Hcontent p Hpin) as Hpc. pose proof (Hcontent q Hqin) as Hqc.
  destruct (content p) as [a|]; [|congruence].
  destruct (content q) as [b|]; [|congruence].
  rewrite Hagree. reflexivity.
Qed.

Lemma getSegmentFromHistory_on_texts
    (d1 d2 : option string -> option string -> Js.outcome (list Change))
    (history : list HistoryItem) :
  Forall (fun h => content h <> None) history ->
  (forall a b, d1 (Some a) (Some b) = d2 (Some a) (Some b)) ->
  getSegmentFromHistory d1 history = getSegmentFromHistory d2 history.
Proof.
  intros Hcontent Hagree. unfold getSegmentFromHistory.
  destruct (change_indices_of history) as [change_indices| |]; try reflexivity.
  cbn [Js.bind]. unfold attribute_pairs.
  apply fold_left_ext_in. intros acc i _.
  destruct acc as [segments| |]; try reflexivity. cbn [Js.bind].
  apply process_pair_on_texts; assumption.
Qed.



